(** * train.py: the training supervisor of mesh-transformer-jax

    A shallow embedding of [src/train.py]: the supervisor loop of
    [__main__], one attempt [main(first)], its step loop, the checkpoint
    schedule and the evaluation round.  The model handle, the dataset
    providers, the benchmark tasks and the telemetry sink are external
    collaborators: every call to one of them is an operation on an abstract
    world that returns a value or raises, and is recorded in a trace. *)

From stdpp Require Import base option list strings gmap.
From Stdlib Require Import ZArith Lia.

Local Open Scope Z_scope.

(** ** Python values and exceptions *)

(** The exception classes the control flow of train.py tells apart:
    [KeyboardInterrupt] and [SystemExit] derive from [BaseException] only,
    the others are subclasses of [Exception]. *)
Inductive exn : Type :=
  | KeyboardInterrupt
  | SystemExit
  | ZeroDivisionError
  | AssertionError
  | Exception (msg : string).

(** [isinstance(e, Exception)], the test of [except Exception as e]. *)
Definition is_Exception (e : exn) : bool :=
  match e with
  | KeyboardInterrupt | SystemExit => false
  | ZeroDivisionError | AssertionError | Exception _ => true
  end.

(** [isinstance(e, KeyboardInterrupt)], the test of the first handler of
    the supervisor. *)
Definition is_KeyboardInterrupt (e : exn) : bool :=
  match e with
  | KeyboardInterrupt => true
  | _ => false
  end.

(** The result of evaluating an expression or a call: a value or a raised
    exception. *)
Inductive res (A : Type) : Type :=
  | Ok (a : A)
  | Raise (e : exn).
Arguments Ok {A} a.
Arguments Raise {A} e.

(** [a % b] on Python ints: the sign follows the divisor, as [Z.modulo]
    does, and a zero divisor raises. *)
Definition py_mod (a b : Z) : res Z :=
  if b =? 0 then Raise ZeroDivisionError else Ok (a mod b).

(** [a // b] on Python ints: floor division, a zero divisor raises. *)
Definition py_floordiv (a b : Z) : res Z :=
  if b =? 0 then Raise ZeroDivisionError else Ok (a / b).

(** ** Command line and configuration *)

(** The namespace returned by [parse_args]. *)
Record args : Type := {
  tpu : string;
  tpu_region : string;
  preemptible : bool;
  config : string;
  new : bool
}.

(** The keys of the configuration file that [main] reads.  [val_set] is a
    JSON object iterated in its order, kept as the list of its items;
    [gradient_accumulation_steps] is optional. *)
Record params : Type := {
  name : string;
  bucket : string;
  model_dir : string;
  gradient_accumulation_steps : option Z;
  per_replica_batch : Z;
  tpu_size : Z;
  cores_per_replica : Z;
  layers : Z;
  d_model : Z;
  n_heads : Z;
  n_vocab : Z;
  seq : Z;
  norm : string;
  pe : string;
  train_set : string;
  val_set : list (string * string);
  val_batches : Z;
  val_every : Z;
  ckpt_every : Z;
  keep_every : Z
}.

(** ** Collaborators *)

(** The values that only the collaborators look into: batches, losses
    (floats, with numpy's mean), the dataset cursor, a task's metrics. *)
Class Carriers : Type := {
  batch : Type;
  loss : Type;
  cstate : Type;
  results : Type;
  mean : list loss → loss
}.

(** The four benchmark tasks built at lines 95-98. *)
Inductive task : Type := Lambada | Winogrande | Piqa | HellaSwag.

(** The dataset objects: [train_dataset] and [val_sets[k]]. *)
Inductive dataset : Type :=
  | DsTrain
  | DsVal (k : string).

(** The keyword arguments of [t.save(step, bucket, model_dir, ...)]: an
    argument the call site does not pass is [None], the default of the
    model handle applies. *)
Record save_args `{Carriers} : Type := {
  sa_step : Z;
  sa_aux : option (gmap string cstate);
  sa_init : bool;
  sa_overwrite : option bool;
  sa_delete_old : option bool
}.

(** What [print] writes. *)
Inductive message `{Carriers} : Type :=
  | MsgFromScratch (exp_name exp_bucket exp_dir : string)
  | MsgSaveFailed (e : exn)
  | MsgRestoreFailed
  | MsgTrainCompiled
  | MsgEvalCompiled
  | MsgValLoss (step : Z) (k : string) (l : loss)
  | MsgResults (r : results).

(** The mappings handed to [wandb.log]. *)
Inductive metrics `{Carriers} : Type :=
  | TrainLoss (l last : loss)
  | ValLoss (k : string) (l : loss)
  | TaskResults (r : results).

(** One entry of the trace per call that leaves [main]. *)
Inductive event `{Carriers} : Type :=
  | EvPrint (m : message)
  | EvInput
  | EvBuildModel
  | EvSave (a : save_args)
  | EvLoad
  | EvNewInputs (d : dataset) (path : string) (batch_size : list Z)
      (sample_size : Z) (restore_state : option cstate)
  | EvTaskInit (t : task)
  | EvGetSamples (d : dataset)
  | EvGetState
  | EvSampleOnce (k : string)
  | EvNext (k : string)
  | EvTrain (b : batch)
  | EvEval (b : batch)
  | EvWandbInit
  | EvWandbLog (m : metrics) (step : Z)
  | EvTaskRun (t : task) (batch_size : Z).

(** The collaborators as operations on a world [W]; each returns or
    raises.  [c_sample_once] makes the generator of a validation pass and
    [c_next] pulls its next batch, [None] when it is exhausted. *)
Record Collab `{Carriers} (W : Type) : Type := {
  c_input : W → res unit * W;
  c_build_model : params → args → W → res unit * W;
  c_save : save_args → W → res unit * W;
  c_load : W → res (Z * gmap string cstate) * W;
  c_new_inputs : dataset → string → list Z → Z → option cstate →
                 W → res unit * W;
  c_task_init : task → W → res unit * W;
  c_get_samples : dataset → W → res batch * W;
  c_get_state : W → res cstate * W;
  c_sample_once : string → W → res unit * W;
  c_next : string → W → res (option batch) * W;
  c_train : batch → W → res (loss * loss) * W;
  c_eval : batch → W → res loss * W;
  c_wandb_init : W → res unit * W;
  c_wandb_log : metrics → Z → W → res unit * W;
  c_task_run : task → Z → W → res results * W
}.
Arguments c_input {_ W} _ _.
Arguments c_build_model {_ W} _ _ _ _.
Arguments c_save {_ W} _ _ _.
Arguments c_load {_ W} _ _.
Arguments c_new_inputs {_ W} _ _ _ _ _ _ _.
Arguments c_task_init {_ W} _ _ _.
Arguments c_get_samples {_ W} _ _ _.
Arguments c_get_state {_ W} _ _.
Arguments c_sample_once {_ W} _ _ _.
Arguments c_next {_ W} _ _ _.
Arguments c_train {_ W} _ _ _.
Arguments c_eval {_ W} _ _ _.
Arguments c_wandb_init {_ W} _ _.
Arguments c_wandb_log {_ W} _ _ _ _.
Arguments c_task_run {_ W} _ _ _ _.

(** ** The monad of [main]: world, exceptions and the trace *)

(** A computation runs from a world to a result, the world it leaves and
    the calls it made, oldest first. *)
Definition M `{Carriers} (W A : Type) : Type := W → res A * W * list event.

Definition result `{Carriers} {W A} (x : res A * W * list event) : res A :=
  x.1.1.
Definition world `{Carriers} {W R} (x : R * W * list event) : W :=
  x.1.2.
Definition events `{Carriers} {W R} (x : R * W * list event)
  : list event := x.2.

Definition ret `{Carriers} {W A} (a : A) : M W A := λ w, (Ok a, w, []).

Definition raise `{Carriers} {W A} (e : exn) : M W A := λ w, (Raise e, w, []).

Definition bind `{Carriers} {W A B} (m : M W A) (f : A → M W B) : M W B :=
  λ w,
    match m w with
    | (Ok a, w1, t1) =>
        match f a w1 with
        | (r, w2, t2) => (r, w2, t1 ++ t2)
        end
    | (Raise e, w1, t1) => (Raise e, w1, t1)
    end.

(** A pure Python expression that may raise. *)
Definition lift `{Carriers} {W A} (r : res A) : M W A := λ w, (r, w, []).

(** A call to a collaborator, recorded whether it returns or raises. *)
Definition call `{Carriers} {W A} (ev : event) (op : W → res A * W)
  : M W A :=
  λ w, match op w with (r, w1) => (r, w1, [ev]) end.

(** [print(...)]. *)
Definition print `{Carriers} {W} (m : message) : M W unit :=
  λ w, (Ok tt, w, [EvPrint m]).

(** [try: m except Exception as e: h e]: only instances of [Exception]
    are handled, anything else propagates. *)
Definition try_except_Exception `{Carriers} {W A}
    (m : M W A) (h : exn → M W A) : M W A :=
  λ w,
    match m w with
    | (Ok a, w1, t1) => (Ok a, w1, t1)
    | (Raise e, w1, t1) =>
        if is_Exception e
        then match h e w1 with (r, w2, t2) => (r, w2, t1 ++ t2) end
        else (Raise e, w1, t1)
    end.

Declare Scope py_scope.
Delimit Scope py_scope with py.
Notation "x <- m ;; k" := (bind m (fun x => k))
  (at level 100, m at next level, right associativity) : py_scope.
Notation "m ;;; k" := (bind m (fun _ => k))
  (at level 100, right associativity) : py_scope.
Local Open Scope py_scope.

(** ** main(first), lines 30-149 *)

Section Program.
Context `{Carriers} {W : Type} (C : Collab W).

(** Lines 34-37: the notice and the confirmation prompt, on every
    attempt that runs with [--new]. *)
Definition confirm_new (a : args) (p : params) : M W unit :=
  if new a then
    print (MsgFromScratch (name p) (bucket p) (model_dir p)) ;;;
    call EvInput (c_input C)
  else ret tt.

(** Line 42: [clean_start = args.new and first]. *)
Definition clean_start (a : args) (first : bool) : bool := new a && first.

(** Line 64: [assert pe in ["fixed", "rotary", "t5"]]. *)
Definition check_pe (p : params) : M W unit :=
  if bool_decide (pe p ∈ ["fixed"; "rotary"; "t5"]%string)
  then ret tt else raise AssertionError.

(** The [t.save] of line 69. *)
Definition init_save_args (a : args) (first : bool) : save_args :=
  {| sa_step := 0; sa_aux := None; sa_init := true;
     sa_overwrite := Some (clean_start a first); sa_delete_old := None |}.

(** Lines 68-78: try the initial save; when it raises an [Exception],
    print it and load instead.  Returns [step] and
    [train_load_restore]. *)
Definition init_or_load (a : args) (first : bool)
  : M W (Z * option cstate) :=
  try_except_Exception
    (call (EvSave (init_save_args a first))
          (c_save C (init_save_args a first)) ;;;
     ret (0, None))
    (fun e =>
       print (MsgSaveFailed e) ;;;
       r <- call EvLoad (c_load C) ;;
       let step := r.1 in
       let aux := r.2 in
       let train_load_restore := aux !! "train_loader"%string in
       match train_load_restore with
       | None => print MsgRestoreFailed
       | Some _ => ret tt
       end ;;;
       ret (step, train_load_restore)).

(** [per_replica_batch * tpu_size // cores_per_replica], lines 82 and
    86. *)
Definition global_batch (p : params) : res Z :=
  py_floordiv (per_replica_batch p * tpu_size p) (cores_per_replica p).

(** Lines 80-84.  In [EvNewInputs] a [restore_state] of [None] is
    Python's [None], passed or left to the default. *)
Definition make_train_dataset (p : params) (restore : option cstate)
  : M W unit :=
  n <- lift (global_batch p) ;;
  call (EvNewInputs DsTrain ("data/" +:+ train_set p)
          [default 1 (gradient_accumulation_steps p); n] (seq p) restore)
       (c_new_inputs C DsTrain ("data/" +:+ train_set p)
          [default 1 (gradient_accumulation_steps p); n] (seq p) restore).

(** Lines 90-93. *)
Fixpoint make_val_sets (gvb sq : Z) (items : list (string * string))
  : M W unit :=
  match items with
  | [] => ret tt
  | (k, v) :: rest =>
      call (EvNewInputs (DsVal k) ("data/" +:+ v) [gvb] sq None)
           (c_new_inputs C (DsVal k) ("data/" +:+ v) [gvb] sq None) ;;;
      make_val_sets gvb sq rest
  end.

(** Lines 95-98. *)
Definition make_tasks : M W unit :=
  call (EvTaskInit Lambada) (c_task_init C Lambada) ;;;
  call (EvTaskInit Winogrande) (c_task_init C Winogrande) ;;;
  call (EvTaskInit Piqa) (c_task_init C Piqa) ;;;
  call (EvTaskInit HellaSwag) (c_task_init C HellaSwag).

(** Lines 100-102: the call that compiles the train function. *)
Definition compile_train : M W unit :=
  b <- call (EvGetSamples DsTrain) (c_get_samples C DsTrain) ;;
  call (EvTrain b) (c_train C b) ;;;
  print MsgTrainCompiled.

(** Lines 105-106: [for val_set in val_sets.values()]. *)
Fixpoint compile_eval_sets (ks : list string) : M W unit :=
  match ks with
  | [] => ret tt
  | k :: rest =>
      b <- call (EvGetSamples (DsVal k)) (c_get_samples C (DsVal k)) ;;
      call (EvEval b) (c_eval C b) ;;;
      compile_eval_sets rest
  end.

(** Lines 104-107. *)
Definition compile_eval (ks : list string) : M W unit :=
  compile_eval_sets ks ;;;
  print MsgEvalCompiled.

(** Lines 112-113. *)
Definition train_step (step : Z) : M W unit :=
  b <- call (EvGetSamples DsTrain) (c_get_samples C DsTrain) ;;
  r <- call (EvTrain b) (c_train C b) ;;
  call (EvWandbLog (TrainLoss r.1 r.2) step)
       (c_wandb_log C (TrainLoss r.1 r.2) step).

(** The [t.save] of lines 116-119. *)
Definition ckpt_save_args (step : Z) (c : cstate) (k : Z) : save_args :=
  {| sa_step := step;
     sa_aux := Some {[ "train_loader"%string := c ]};
     sa_init := false;
     sa_overwrite := None;
     sa_delete_old := Some (negb (k =? 0)) |}.

(** Lines 115-119: [if step % ckpt_every == 0 and step:], the keyword
    arguments evaluated left to right. *)
Definition checkpoint (p : params) (step : Z) : M W unit :=
  m <- lift (py_mod step (ckpt_every p)) ;;
  if (m =? 0) && negb (step =? 0) then
    c <- call EvGetState (c_get_state C) ;;
    k <- lift (py_mod step (keep_every p)) ;;
    call (EvSave (ckpt_save_args step c k))
         (c_save C (ckpt_save_args step c k))
  else ret tt.

(** Lines 124-127: [zip(val_set.sample_once(), range(val_batches))]
    pulls the generator first and the range second; [n] is what is left
    of the range. *)
Fixpoint val_losses (k : string) (n : nat) : M W (list loss) :=
  x <- call (EvNext k) (c_next C k) ;;
  match x with
  | None => ret []
  | Some i =>
      match n with
      | O => ret []
      | S n' =>
          l <- call (EvEval i) (c_eval C i) ;;
          ls <- val_losses k n' ;;
          ret (l :: ls)
      end
  end.

(** Lines 123-131: one validation set. *)
Definition validate (p : params) (step : Z) (k : string) : M W unit :=
  call (EvSampleOnce k) (c_sample_once C k) ;;;
  ls <- val_losses k (Z.to_nat (val_batches p)) ;;
  print (MsgValLoss step k (mean ls)) ;;;
  call (EvWandbLog (ValLoss k (mean ls)) step)
       (c_wandb_log C (ValLoss k (mean ls)) step).

(** Lines 122-131: [for name, val_set in val_sets.items()]. *)
Fixpoint validate_all (p : params) (step : Z) (ks : list string)
  : M W unit :=
  match ks with
  | [] => ret tt
  | k :: rest => validate p step k ;;; validate_all p step rest
  end.

(** One benchmark task: run, log, print (lines 133-135 and the three
    copies that follow). *)
Definition run_task (t : task) (gvb step : Z) : M W unit :=
  r <- call (EvTaskRun t gvb) (c_task_run C t gvb) ;;
  call (EvWandbLog (TaskResults r) step)
       (c_wandb_log C (TaskResults r) step) ;;;
  print (MsgResults r).

(** Lines 133-147. *)
Definition benchmarks (gvb step : Z) : M W unit :=
  run_task Lambada gvb step ;;;
  run_task Winogrande gvb step ;;;
  run_task Piqa gvb step ;;;
  run_task HellaSwag gvb step.

(** The keys of [val_sets], in the order of [params['val_set']]. *)
Definition val_names (p : params) : list string := (val_set p).*1.

(** The body of [if step % val_every == 0:], lines 122-147. *)
Definition eval_round (p : params) (gvb step : Z) : M W unit :=
  validate_all p step (val_names p) ;;;
  benchmarks gvb step.

(** Lines 121-147. *)
Definition evaluation (p : params) (gvb step : Z) : M W unit :=
  m <- lift (py_mod step (val_every p)) ;;
  if m =? 0 then eval_round p gvb step else ret tt.

(** One pass through the body of [while True:], lines 112-149; returns
    the incremented [step]. *)
Definition iteration (p : params) (gvb step : Z) : M W Z :=
  train_step step ;;;
  checkpoint p step ;;;
  evaluation p gvb step ;;;
  ret (step + 1).

(** [while True:] of line 111, cut after [fuel] iterations: [Ok step]
    means the loop is still running and about to start the iteration of
    [step]; the loop itself leaves only by raising. *)
Fixpoint step_loop (p : params) (gvb : Z) (fuel : nat) (step : Z)
  : M W Z :=
  match fuel with
  | O => ret step
  | S n => s <- iteration p gvb step ;; step_loop p gvb n s
  end.

(** Lines 100-109: what runs between the construction of the tasks and
    the loop. *)
Definition warm_up (p : params) : M W unit :=
  compile_train ;;;
  compile_eval (val_names p) ;;;
  call EvWandbInit (c_wandb_init C).

(** Lines 80-149: what [main] does once [step] and
    [train_load_restore] are set, its loop cut after [fuel]
    iterations. *)
Definition train_from (fuel : nat) (p : params) (step : Z)
    (train_load_restore : option cstate) : M W Z :=
  make_train_dataset p train_load_restore ;;;
  gvb <- lift (global_batch p) ;;
  make_val_sets gvb (seq p) (val_set p) ;;;
  make_tasks ;;;
  warm_up p ;;;
  step_loop p gvb fuel step.

(** [main(first)] with the arguments and the configuration it parses,
    its loop cut after [fuel] iterations. *)
Definition main (fuel : nat) (a : args) (p : params) (first : bool)
  : M W Z :=
  confirm_new a p ;;;
  check_pe p ;;;
  call EvBuildModel (c_build_model C p a) ;;;
  sr <- init_or_load a first ;;
  train_from fuel p sr.1 sr.2.

(** ** The supervisor, lines 152-161 *)

(** Where the supervisor stands when the model stops following it. *)
Inductive sup_state : Type :=
  | SupExited
  | SupInAttempt (step : Z)
  | SupNextAttempt (first : bool).

(** [while True: try: main(first) ...; first = False], cut after
    [attempts] calls of [main], each cut after [fuel] iterations.
    [SupExited]: the [break] was taken and the script ended;
    [SupInAttempt]: the current attempt is still running;
    [SupNextAttempt first]: the next thing to run is [main(first)]. *)
Fixpoint supervisor (attempts fuel : nat) (a : args) (p : params)
    (first : bool) (w : W) : sup_state * W * list event :=
  match attempts with
  | O => (SupNextAttempt first, w, [])
  | S n =>
      match main fuel a p first w with
      | (Ok s, w1, t1) => (SupInAttempt s, w1, t1)
      | (Raise e, w1, t1) =>
          if is_KeyboardInterrupt e then (SupExited, w1, t1)
          else
            match supervisor n fuel a p false w1 with
            | (r, w2, t2) => (r, w2, t1 ++ t2)
            end
      end
  end.

(** Lines 153-161: the script starts the supervisor with
    [first = True]. *)
Definition script (attempts fuel : nat) (a : args) (p : params) (w : W)
  : sup_state * W * list event :=
  supervisor attempts fuel a p true w.

End Program.

(** ** A reference world

    The collaborators are not part of train.py.  The world below gives
    them the behaviour the specification describes at their interface, with
    faults that can be scripted; it is used to run [main] and [supervisor]
    on concrete inputs. *)

(** Batches are numbered by their position in the dataset, the cursor is
    the number of training batches emitted so far, losses carry no
    information and a task's metrics are tagged with the task. *)
Definition sim_carriers : Carriers :=
  {| batch := Z; loss := unit; cstate := Z; results := task;
     mean := fun _ => tt |}.

Record sim : Type := {
  ckpts : list (Z * gmap string Z);
  cursor : Z;
  train_calls : nat;
  train_faults : list (nat * exn);
  task_fault : task → option exn;
  val_size : nat;
  val_pos : nat
}.

Definition set_ckpts (l : list (Z * gmap string Z)) (w : sim) : sim :=
  {| ckpts := l; cursor := cursor w; train_calls := train_calls w;
     train_faults := train_faults w; task_fault := task_fault w;
     val_size := val_size w; val_pos := val_pos w |}.

Definition set_cursor (c : Z) (w : sim) : sim :=
  {| ckpts := ckpts w; cursor := c; train_calls := train_calls w;
     train_faults := train_faults w; task_fault := task_fault w;
     val_size := val_size w; val_pos := val_pos w |}.

Definition set_train_calls (n : nat) (w : sim) : sim :=
  {| ckpts := ckpts w; cursor := cursor w; train_calls := n;
     train_faults := train_faults w; task_fault := task_fault w;
     val_size := val_size w; val_pos := val_pos w |}.

Definition set_val_pos (n : nat) (w : sim) : sim :=
  {| ckpts := ckpts w; cursor := cursor w; train_calls := train_calls w;
     train_faults := train_faults w; task_fault := task_fault w;
     val_size := val_size w; val_pos := n |}.

(** The exception scripted for the [n]-th call of [t.train], if any. *)
Fixpoint fault_at (n : nat) (l : list (nat * exn)) : option exn :=
  match l with
  | [] => None
  | (i, e) :: rest => if Nat.eqb i n then Some e else fault_at n rest
  end.

(** Modelled from the spec: [t.save], the model handle's method, is not in
    train.py.  Section 4.2: the initial save succeeds when no checkpoint
    exists or overwrite is authorized (the old data is then replaced), and
    fails, leaving the address as it is, when a checkpoint exists and
    overwrite is not authorized.  Section 4.4: a later write adds the new
    checkpoint and, when [delete_old] is set, deletes the previous one (the
    newest before the write) once the new one is written.  [ckpts] lists
    the checkpoints at the address, oldest first. *)
Definition sim_save (a : @save_args sim_carriers) (w : sim)
  : res unit * sim :=
  let aux := default ∅ (@sa_aux sim_carriers a) in
  if @sa_init sim_carriers a then
    match ckpts w with
    | [] => (Ok tt, set_ckpts [(@sa_step sim_carriers a, aux)] w)
    | _ :: _ =>
        match @sa_overwrite sim_carriers a with
        | Some true => (Ok tt, set_ckpts [(@sa_step sim_carriers a, aux)] w)
        | _ => (Raise (Exception "checkpoint exists"), w)
        end
    end
  else
    match @sa_delete_old sim_carriers a with
    | Some true =>
        (Ok tt,
         set_ckpts (removelast (ckpts w) ++ [(@sa_step sim_carriers a, aux)])
                   w)
    | _ =>
        (Ok tt, set_ckpts (ckpts w ++ [(@sa_step sim_carriers a, aux)]) w)
    end.

(** Modelled from the spec: [t.load] is not in train.py.  Section 4.2: it
    loads the most recent checkpoint and returns its step and its
    auxiliary payload. *)
Definition sim_load (w : sim) : res (Z * gmap string Z) * sim :=
  match last (ckpts w) with
  | Some c => (Ok c, w)
  | None => (Raise (Exception "no checkpoint"), w)
  end.

(** Modelled from the spec: [TFRecordNewInputs] is not in train.py.
    Section 4.3: the training provider resumes from the cursor it is
  given and starts at the beginning without one; validation providers
  keep no state between passes. *)
Definition sim_new_inputs (d : dataset) (path : string) (bs : list Z)
  (sample_size : Z) (restore : option Z) (w : sim) : res unit * sim :=
match d with
| DsTrain => (Ok tt, set_cursor (default 0 restore) w)
| DsVal _ => (Ok tt, w)
end.

(** Modelled from the spec: [get_samples] is not in train.py.  Section
  4.3: the provider emits the batch at its cursor and moves on. *)
Definition sim_get_samples (d : dataset) (w : sim) : res Z * sim :=
match d with
| DsTrain => (Ok (cursor w), set_cursor (cursor w + 1) w)
| DsVal _ => (Ok 0, w)
end.

(** Modelled from the spec: [get_state] is not in train.py.  Section 4.3:
  a snapshot of the current cursor. *)
Definition sim_get_state (w : sim) : res Z * sim := (Ok (cursor w), w).

(** Modelled from the spec: [sample_once] is not in train.py.  Section
  4.3: each validation round restarts the provider from its beginning;
  a pass has [val_size] batches. *)
Definition sim_sample_once (k : string) (w : sim) : res unit * sim :=
(Ok tt, set_val_pos 0 w).

(** Modelled from the spec: pulling the generator of [sample_once] is not
  in train.py.  Section 4.3: a pass draws the batches of the set from
  its beginning, one per pull, until the set is exhausted. *)
Definition sim_next (k : string) (w : sim) : res (option Z) * sim :=
if Nat.ltb (val_pos w) (val_size w)
then (Ok (Some (Z.of_nat (val_pos w))), set_val_pos (S (val_pos w)) w)
else (Ok None, w).

(** Modelled from the spec: [t.train] is not in train.py.  Section 2: it
  returns a pair of losses; here the scripted calls raise instead. *)
Definition sim_train (b : Z) (w : sim) : res (unit * unit) * sim :=
match fault_at (train_calls w) (train_faults w) with
| Some e => (Raise e, set_train_calls (S (train_calls w)) w)
| None => (Ok (tt, tt), set_train_calls (S (train_calls w)) w)
end.

(** Modelled from the spec: a benchmark task's [run] is not in train.py.
  Section 2: it returns named metrics; here a scripted task raises
  instead. *)
Definition sim_task_run (t : task) (bs : Z) (w : sim) : res task * sim :=
match task_fault w t with
| Some e => (Raise e, w)
| None => (Ok t, w)
end.

Definition sim_collab : @Collab sim_carriers sim :=
{| c_input := fun w => (Ok tt, w);
   c_build_model := fun _ _ w => (Ok tt, w);
   c_save := sim_save;
   c_load := sim_load;
   c_new_inputs := sim_new_inputs;
   c_task_init := fun _ w => (Ok tt, w);
   c_get_samples := sim_get_samples;
   c_get_state := sim_get_state;
   c_sample_once := sim_sample_once;
   c_next := sim_next;
   c_train := sim_train;
   c_eval := fun _ w => (Ok tt, w);
   c_wandb_init := fun w => (Ok tt, w);
   c_wandb_log := fun _ _ w => (Ok tt, w);
   c_task_run := sim_task_run |}.

(** An empty checkpoint address, a training provider at its start and no
  fault. *)
Definition sim_fresh : sim :=
{| ckpts := []; cursor := 0; train_calls := 0; train_faults := [];
   task_fault := fun _ => None; val_size := 2; val_pos := 0 |}.

Definition with_train_faults (l : list (nat * exn)) (w : sim) : sim :=
{| ckpts := ckpts w; cursor := cursor w; train_calls := train_calls w;
   train_faults := l; task_fault := task_fault w;
   val_size := val_size w; val_pos := val_pos w |}.

Definition with_task_fault (f : task → option exn) (w : sim) : sim :=
{| ckpts := ckpts w; cursor := cursor w; train_calls := train_calls w;
   train_faults := train_faults w; task_fault := f;
   val_size := val_size w; val_pos := val_pos w |}.

Definition sim_args (fresh : bool) : args :=
{| tpu := "tpu"; tpu_region := "region"; preemptible := false;
   config := "config.json"; new := fresh |}.

(** A configuration with one validation set. *)
Definition sim_params (ckpt keep val : Z) : params :=
{| name := "run"; bucket := "bucket"; model_dir := "dir";
   gradient_accumulation_steps := None;
   per_replica_batch := 1; tpu_size := 8; cores_per_replica := 8;
   layers := 1; d_model := 1; n_heads := 1; n_vocab := 1; seq := 1;
   norm := "layernorm"; pe := "rotary"; train_set := "train.index";
   val_set := [("pile"%string, "val.index"%string)];
   val_batches := 1; val_every := val; ckpt_every := ckpt;
   keep_every := keep |}.

(** The checkpoint writes of a trace, in order. *)
Definition saves `{Carriers} (t : list event) : list save_args :=
omap (fun ev => match ev with EvSave a => Some a | _ => None end) t.

(** ** Observations on traces *)

#[global] Instance exn_eq_dec : EqDecision exn.
Proof. solve_decision. Defined.

#[global] Instance task_eq_dec : EqDecision task.
Proof. solve_decision. Defined.

Section Observations.
Context `{Carriers} {W : Type}.

(** Every call of [m], from any world, satisfies [P]. *)
Definition emits {A} (P : event → Prop) (m : M W A) : Prop :=
  ∀ w, Forall P (events (m w)).

(** The calls of lines 112-113. *)
Definition train_event (ev : event) : Prop :=
  match ev with
  | EvGetSamples DsTrain | EvTrain _ | EvWandbLog (TrainLoss _ _) _ => True
  | _ => False
  end.

(** The calls of lines 116-119. *)
Definition ckpt_event (ev : event) : Prop :=
  match ev with
  | EvGetState | EvSave _ => True
  | _ => False
  end.

(** The calls of an evaluation round, lines 122-147. *)
Definition round_event (ev : event) : Prop :=
  match ev with
  | EvSampleOnce _ | EvNext _ | EvEval _ | EvTaskRun _ _ => True
  | EvWandbLog (ValLoss _ _) _ | EvWandbLog (TaskResults _) _ => True
  | EvPrint (MsgValLoss _ _ _) | EvPrint (MsgResults _) => True
  | _ => False
  end.

(** The calls of the validation passes, lines 122-131. *)
Definition val_event (ev : event) : Prop :=
  match ev with
  | EvSampleOnce _ | EvNext _ | EvEval _ => True
  | EvWandbLog (ValLoss _ _) _ | EvPrint (MsgValLoss _ _ _) => True
  | _ => False
  end.

(** The calls of the benchmark tasks, lines 133-147. *)
Definition task_event (ev : event) : Prop :=
  match ev with
  | EvTaskRun _ _ => True
  | EvWandbLog (TaskResults _) _ | EvPrint (MsgResults _) => True
  | _ => False
  end.

(** A trace seen through a projection [f] of its events. *)
Definition view {X} (f : event → option X) (t : list event) : list X :=
  omap f t.

(** Seen through [f], [m] walks along the fixed list [L] from any world:
    it shows a prefix of [L] when it raises and the whole of [L] when
    it returns. *)
Definition follows {X A} (f : event → option X) (L : list X)
    (m : M W A) : Prop :=
  ∀ w, view f (events (m w)) `prefix_of` L ∧
       (∀ a, result (m w) = Ok a → view f (events (m w)) = L).

End Observations.

(** The steps of an evaluation round that the ordering is about: the
  report of a validation loss and the run of a benchmark task. *)
Inductive round_op : Type :=
| OpValLoss (k : string)
| OpTask (t : task).

Definition round_op_of `{Carriers} (ev : event) : option round_op :=
match ev with
| EvWandbLog (ValLoss k _) _ => Some (OpValLoss k)
| EvTaskRun t _ => Some (OpTask t)
| _ => None
end.

(** The order of lines 133-147. *)
Definition task_order : list task := [Lambada; Winogrande; Piqa; HellaSwag].

(** The steps of a whole round for a configuration. *)
Definition round_schedule (p : params) : list round_op :=
(OpValLoss <$> (val_set p).*1) ++ (OpTask <$> task_order).





(** The step under which a training loss is reported (line 113): the
  steps the run counts. *)
Definition counted_step `{Carriers} (ev : event) : option Z :=
match ev with
| EvWandbLog (TrainLoss _ _) s => Some s
| _ => None
end.

(** [n] consecutive steps from [s0]. *)
Fixpoint steps_from (s0 : Z) (n : nat) : list Z :=
match n with
| O => []
| S n' => s0 :: steps_from (s0 + 1) n'
end.

(** The calls [main] makes before line 100. *)
Definition setup_event `{Carriers} (ev : event) : Prop :=
match ev with
| EvPrint (MsgFromScratch _ _ _) | EvPrint (MsgSaveFailed _)
| EvPrint MsgRestoreFailed => True
| EvInput | EvBuildModel | EvSave _ | EvLoad => True
| EvNewInputs _ _ _ _ _ | EvTaskInit _ => True
| _ => False
end.

(** A save that replaces what is at the checkpoint address: issued with
  [overwrite=True]. *)
Definition destructive `{Carriers} (ev : event) : Prop :=
match ev with
| EvSave sa => sa_overwrite sa = Some true
| _ => False
end.

(** The saves [main(first)] can issue: the initial save of line 69, or a
  later one, which is not an initial save and does not pass
  [overwrite]. *)
Definition save_of_main `{Carriers} (a : args) (first : bool) (ev : event)
: Prop :=
match ev with
| EvSave sa =>
    sa = init_save_args a first ∨
    (sa_init sa = false ∧ sa_overwrite sa = None)
| _ => True
end.

(** A call that is no destructive save; an initial save among them is
  issued with [overwrite=False]. *)
Definition non_destructive `{Carriers} (ev : event) : Prop :=
match ev with
| EvSave sa =>
    sa_overwrite sa ≠ Some true ∧
    (sa_init sa = true → sa_overwrite sa = Some false)
| _ => True
end.

(** A call that reports the exception [e]: the only message that carries
  an exception is the one of line 73. *)
Definition reports `{Carriers} (e : exn) (ev : event) : bool :=
match ev with
| EvPrint (MsgSaveFailed e') => bool_decide (e' = e)
| _ => false
end.

(** The benchmark tasks [ts] in a row, each as one of the four copies of
  lines 133-135. *)
Fixpoint run_tasks `{Carriers} {W : Type} (C : Collab W) (ts : list task)
  (gvb step : Z) : M W unit :=
match ts with
| [] => ret tt
| t :: rest => run_task C t gvb step ;;; run_tasks C rest gvb step
end.

(** ** Inputs of the reference runs *)

(** The cursor a save carries in its payload. *)
Definition cursor_of (sa : @save_args sim_carriers) : option Z :=
@sa_aux sim_carriers sa ≫= (.!! "train_loader"%string).

(** A world in which the given calls of [t.train] raise. *)
Definition crashing (calls : list nat) : sim :=
with_train_faults ((λ i, (i, Exception "boom")) <$> calls) sim_fresh.

(** A world in which the run of lambada raises. *)
Definition lambada_fails : sim :=
with_task_fault
  (λ t, match t with
        | Lambada => Some (Exception "lambada")
        | _ => None
        end) sim_fresh.

(** A world whose checkpoint address holds one checkpoint, of step 7,
  with an empty payload. *)
Definition no_cursor_saved : sim := set_ckpts [(7, ∅)] sim_fresh.

(** ** Further observations *)

(** The world in which [main] reaches line 68. *)
Definition before_init `{Carriers} {W : Type} (C : Collab W) (a : args)
  (p : params) : M W unit :=
confirm_new C a p ;;; check_pe p ;;;
call EvBuildModel (c_build_model C p a).

(** The calls [main] makes up to line 78, before any dataset exists. *)
Definition before_dataset_event `{Carriers} (ev : event) : Prop :=
match ev with
| EvPrint (MsgFromScratch _ _ _) | EvPrint (MsgSaveFailed _)
| EvPrint MsgRestoreFailed => True
| EvInput | EvBuildModel | EvSave _ | EvLoad => True
| _ => False
end.

(** The calls [main] can make from line 80 on: no prompt, no model
  construction, no load, and no initial save. *)
Definition run_event `{Carriers} (ev : event) : Prop :=
match ev with
| EvPrint (MsgFromScratch _ _ _) | EvPrint (MsgSaveFailed _)
| EvPrint MsgRestoreFailed => False
| EvInput | EvBuildModel | EvLoad => False
| EvSave sa => sa_init sa = false
| _ => True
end.

(** The batch shapes and paths of lines 80-98 and 133-147, read off the
  configuration. *)
Definition wired `{Carriers} (p : params) (ev : event) : Prop :=
match ev with
| EvNewInputs DsTrain path bs n r =>
    path = ("data/" +:+ train_set p)%string ∧ n = seq p ∧
    ∃ g, global_batch p = Ok g ∧
         bs = [default 1 (gradient_accumulation_steps p); g]
| EvNewInputs (DsVal k) path bs n r =>
    n = seq p ∧ r = None ∧
    ∃ v g, (k, v) ∈ val_set p ∧ path = ("data/" +:+ v)%string ∧
           global_batch p = Ok g ∧ bs = [g]
| EvTaskRun t bs => global_batch p = Ok bs
| _ => True
end.

(** The set-up steps of an attempt, in the order of lines 66-109. *)
Inductive setup_op : Type :=
| OpBuildModel
| OpInitSave
| OpNewInputs (d : dataset)
| OpTaskInit (t : task)
| OpCompileTrain
| OpWandbInit.

Definition setup_op_of `{Carriers} (ev : event) : option setup_op :=
match ev with
| EvBuildModel => Some OpBuildModel
| EvSave _ => Some OpInitSave
| EvNewInputs d _ _ _ _ => Some (OpNewInputs d)
| EvTaskInit t => Some (OpTaskInit t)
| EvTrain _ => Some OpCompileTrain
| EvWandbInit => Some OpWandbInit
| _ => None
end.

Definition setup_schedule (p : params) : list setup_op :=
[OpBuildModel; OpInitSave; OpNewInputs DsTrain] ++
((λ k, OpNewInputs (DsVal k)) <$> (val_set p).*1) ++
(OpTaskInit <$> task_order) ++
[OpCompileTrain; OpWandbInit].

(** The calls of [t.eval] and the pulls of a validation generator. *)
Definition eval_call_of `{Carriers} (ev : event) : option unit :=
match ev with
| EvEval _ => Some tt
| _ => None
end.

Definition pull_of `{Carriers} (ev : event) : option string :=
match ev with
| EvNext k => Some k
| _ => None
end.

(** The step a report is filed under: [wandb.log] and the validation
  message of line 129. *)
Definition filed_under `{Carriers} (ev : event) : option Z :=
match ev with
| EvWandbLog _ s => Some s
| EvPrint (MsgValLoss s _ _) => Some s
| _ => None
end.

(** The calls of the evaluation of one iteration, lines 121-147: every
  report is filed under [step] and every task is run with the batch
  size [gvb]. *)
Definition round_event_of `{Carriers} (gvb step : Z) (ev : event) : Prop :=
match ev with
| EvSampleOnce _ | EvNext _ | EvEval _ => True
| EvTaskRun _ bs => bs = gvb
| EvWandbLog (ValLoss _ _) s | EvWandbLog (TaskResults _) s => s = step
| EvPrint (MsgValLoss s _ _) => s = step
| EvPrint (MsgResults _) => True
| _ => False
end.

(** The calls of lines 100-109. *)
Definition warm_up_event `{Carriers} (ev : event) : Prop :=
match ev with
| EvGetSamples _ | EvTrain _ | EvEval _ | EvWandbInit => True
| EvPrint MsgTrainCompiled | EvPrint MsgEvalCompiled => True
| _ => False
end.

(** ** Further inputs of the reference runs *)

(** The configuration of the reference runs with other values of
  [cores_per_replica], [val_batches] and [pe]. *)
Definition sim_params_with (cores batches : Z) (mode : string)
  (ckpt keep val : Z) : params :=
{| name := "run"; bucket := "bucket"; model_dir := "dir";
   gradient_accumulation_steps := None;
   per_replica_batch := 1; tpu_size := 8; cores_per_replica := cores;
   layers := 1; d_model := 1; n_heads := 1; n_vocab := 1; seq := 1;
   norm := "layernorm"; pe := mode; train_set := "train.index";
   val_set := [("pile"%string, "val.index"%string)];
   val_batches := batches; val_every := val; ckpt_every := ckpt;
   keep_every := keep |}.

(** The reference collaborators with another [t.load] and another
  [input]. *)
Definition sim_collab_with
  (load : sim → res (Z * gmap string Z) * sim)
  (input : sim → res unit * sim) : @Collab sim_carriers sim :=
{| c_input := input;
   c_build_model := fun _ _ w => (Ok tt, w);
   c_save := sim_save;
   c_load := load;
   c_new_inputs := sim_new_inputs;
   c_task_init := fun _ w => (Ok tt, w);
   c_get_samples := sim_get_samples;
   c_get_state := sim_get_state;
   c_sample_once := sim_sample_once;
   c_next := sim_next;
   c_train := sim_train;
   c_eval := fun _ w => (Ok tt, w);
   c_wandb_init := fun w => (Ok tt, w);
   c_wandb_log := fun _ _ w => (Ok tt, w);
   c_task_run := sim_task_run |}.

(** Collaborators whose [t.load] always raises. *)
Definition sim_collab_load_fails : @Collab sim_carriers sim :=
sim_collab_with (fun w => (Raise (Exception "corrupt checkpoint"), w))
                (fun w => (Ok tt, w)).

(** Collaborators whose [input] raises, as on a closed standard input. *)
Definition sim_collab_no_stdin : @Collab sim_carriers sim :=
sim_collab_with sim_load (fun w => (Raise (Exception "EOFError"), w)).

(** A world whose checkpoint address holds one checkpoint, of step 7,
  with the cursor at 9. *)
Definition cursor_saved : sim :=
set_ckpts [(7, {[ "train_loader"%string := 9 ]})] sim_fresh.

(** A world in which the first call of [t.train] raises
  [KeyboardInterrupt]. *)
Definition interrupted : sim :=
with_train_faults [(0%nat, KeyboardInterrupt)] sim_fresh.

(** ** What an evaluation round is, call by call *)

(** One validation pass over a range of [n], as a run of the
  collaborators: the generator is pulled and, while it yields a batch
  and the range is not used up, [t.eval] is called on that batch and
  its loss kept, in order; the pass ends on the pull that finds the
  generator exhausted or the range used up.  [pass_run C k n w t ls w']:
  from world [w] the pass makes the calls [t], collects the losses [ls]
  and leaves world [w']. *)
Inductive pass_run `{Carriers} {W : Type} (C : Collab W) (k : string)
: nat → W → list event → list loss → W → Prop :=
| pass_exhausted n w w1 :
    c_next C k w = (Ok None, w1) →
    pass_run C k n w [EvNext k] [] w1
| pass_range_end w b w1 :
    c_next C k w = (Ok (Some b), w1) →
    pass_run C k O w [EvNext k] [] w1
| pass_step n w b w1 l w2 t ls w3 :
    c_next C k w = (Ok (Some b), w1) →
    c_eval C b w1 = (Ok l, w2) →
    pass_run C k n w2 t ls w3 →
    pass_run C k (S n) w (EvNext k :: EvEval b :: t) (l :: ls) w3.

(** The validation passes of a round over the sets [ks]: for each set in
  turn, the generator is made, a pass is run, and the mean of its
  losses is printed and reported under [step]. *)
Inductive passes_run `{Carriers} {W : Type} (C : Collab W) (n : nat)
  (step : Z) : list string → W → list event → W → Prop :=
| passes_done w : passes_run C n step [] w [] w
| passes_next k ks w w1 t ls w2 w3 rest w4 :
    c_sample_once C k w = (Ok tt, w1) →
    pass_run C k n w1 t ls w2 →
    c_wandb_log C (ValLoss k (mean ls)) step w2 = (Ok tt, w3) →
    passes_run C n step ks w3 rest w4 →
    passes_run C n step (k :: ks) w
      (EvSampleOnce k :: t ++
       EvPrint (MsgValLoss step k (mean ls)) ::
       EvWandbLog (ValLoss k (mean ls)) step :: rest) w4.

(** The benchmark tasks [ts] of a round: each in turn is run with the
  batch size [gvb], and what it returns is reported under [step] and
  printed. *)
Inductive tasks_run `{Carriers} {W : Type} (C : Collab W) (gvb step : Z)
: list task → W → list event → W → Prop :=
| tasks_done w : tasks_run C gvb step [] w [] w
| tasks_next t ts w r w1 w2 rest w3 :
    c_task_run C t gvb w = (Ok r, w1) →
    c_wandb_log C (TaskResults r) step w1 = (Ok tt, w2) →
    tasks_run C gvb step ts w2 rest w3 →
    tasks_run C gvb step (t :: ts) w
      (EvTaskRun t gvb :: EvWandbLog (TaskResults r) step ::
       EvPrint (MsgResults r) :: rest) w3.

(** A whole evaluation round: the validation passes of every configured
  set, in the configured order, followed by lambada, winogrande, piqa
  and hellaswag. *)
Definition round_run `{Carriers} {W : Type} (C : Collab W) (p : params)
  (gvb step : Z) (w : W) (t : list event) (w' : W) : Prop :=
∃ tv w1 tb,
  t = tv ++ tb ∧
  passes_run C (Z.to_nat (val_batches p)) step (val_set p).*1 w tv w1 ∧
  tasks_run C gvb step [Lambada; Winogrande; Piqa; HellaSwag] w1 tb w'.

(** ** The attempts of a run of the supervisor *)

(** The attempts the supervisor starts, oldest first: for each, the
  value of [first] and the world in which [main(first)] is called. *)
Fixpoint attempts_run `{Carriers} {W : Type} (C : Collab W)
  (attempts fuel : nat) (a : args) (p : params) (first : bool) (w : W)
: list (bool * W) :=
match attempts with
| O => []
| S n =>
    (first, w) ::
    match main C fuel a p first w with
    | (Ok _, _, _) => []
    | (Raise e, w1, _) =>
        if is_KeyboardInterrupt e then []
        else attempts_run C n fuel a p false w1
    end
end.

(** * Properties *)

(** ** The monad *)

Section MonadFacts.
Context `{Carriers} {W : Type}.

Lemma result_bind {A B} (m : M W A) (f : A → M W B) w :
  result (bind m f w) =
  match result (m w) with
  | Ok a => result (f a (world (m w)))
  | Raise e => Raise e
  end.
Proof.
  unfold bind, result, world.
  destruct (m w) as [[[a|e] w1] t1]; simpl; [|done].
  by destruct (f a w1) as [[r w2] t2].
Qed.

Lemma world_bind {A B} (m : M W A) (f : A → M W B) w :
  world (bind m f w) =
  match result (m w) with
  | Ok a => world (f a (world (m w)))
  | Raise e => world (m w)
  end.
Proof.
  unfold bind, result, world.
  destruct (m w) as [[[a|e] w1] t1]; simpl; [|done].
  by destruct (f a w1) as [[r w2] t2].
Qed.

Lemma events_bind {A B} (m : M W A) (f : A → M W B) w :
  events (bind m f w) =
  events (m w) ++
  match result (m w) with
  | Ok a => events (f a (world (m w)))
  | Raise e => []
  end.
Proof.
  unfold bind, result, world, events.
  destruct (m w) as [[[a|e] w1] t1]; simpl; [|by rewrite app_nil_r].
  by destruct (f a w1) as [[r w2] t2].
Qed.

Lemma run_eta {A} (x : res A * W * list event) :
  x = (result x, world x, events x).
Proof. by destruct x as [[r w] t]. Qed.

(** A sequence that returns has returned from its first part. *)
Lemma bind_Ok_inv {A B} (m : M W A) (f : A → M W B) w b :
  result (bind m f w) = Ok b →
  ∃ a, result (m w) = Ok a ∧ result (f a (world (m w))) = Ok b.
Proof.
  rewrite result_bind. destruct (result (m w)) as [a|e]; [|done].
  intros Hf. by exists a.
Qed.

Lemma emits_ret {A} P (a : A) : emits P (@ret _ W A a).
Proof. intros w. constructor. Qed.

Lemma emits_raise {A} P e : emits P (@raise _ W A e).
Proof. intros w. constructor. Qed.

Lemma emits_lift {A} P (r : res A) : emits P (@lift _ W A r).
Proof. intros w. constructor. Qed.

Lemma emits_call {A} (P : event → Prop) ev (op : W → res A * W) :
  P ev → emits P (call ev op).
Proof.
  intros HP w. unfold call, events. destruct (op w). simpl. by repeat constructor.
Qed.

Lemma emits_print (P : event → Prop) m :
  P (EvPrint m) → emits P (@print _ W m).
Proof. intros HP w. unfold print, events. simpl. by repeat constructor. Qed.

Lemma emits_bind {A B} P (m : M W A) (f : A → M W B) :
  emits P m → (∀ a, emits P (f a)) → emits P (bind m f).
Proof.
  intros Hm Hf w. rewrite events_bind. apply Forall_app. split; [apply Hm|].
  destruct (result (m w)); [apply Hf|constructor].
Qed.

Lemma emits_try {A} P (m : M W A) h :
  emits P m → (∀ e, emits P (h e)) → emits P (try_except_Exception m h).
Proof.
  intros Hm Hh w. unfold try_except_Exception.
  specialize (Hm w). unfold events in *.
  destruct (m w) as [[[a|e] w1] t1]; simpl in *; [done|].
  destruct (is_Exception e); [|done].
  specialize (Hh e w1). destruct (h e w1) as [[r w2] t2]. simpl in *.
  apply Forall_app. by split.
Qed.

End MonadFacts.

Create HintDb trace discriminated.
#[global] Hint Resolve emits_ret emits_raise emits_lift emits_print
emits_call : trace.

(** Walks through a computation and leaves one goal per recorded call. *)
Ltac emits_step :=
lazymatch goal with
| |- emits _ (bind _ _) => apply emits_bind; [|intros ?]
| |- emits _ (try_except_Exception _ _) => apply emits_try; [|intros ?]
| |- emits _ (ret _) => apply emits_ret
| |- emits _ (raise _) => apply emits_raise
| |- emits _ (lift _) => apply emits_lift
| |- emits _ (call _ _) => apply emits_call
| |- emits _ (print _) => apply emits_print
| |- emits _ (if ?b then _ else _) => destruct b
| |- emits _ (match ?x with _ => _ end) => destruct x
end.
Ltac emits_walk := repeat emits_step.

(** Settles an implication between two classifications of an event. *)
Ltac classify_event :=
let ev := fresh "ev" in
let Hev := fresh "Hev" in
intros ev Hev; destruct ev; simpl in *;
repeat case_match; first [done | tauto].

(** ** The step loop *)

Section StepLoop.
Context `{Carriers} {W : Type} (C : Collab W).

Lemma events_call {A} ev (op : W → res A * W) w :
  events (call ev op w) = [ev].
Proof. unfold call, events. by destruct (op w). Qed.

Lemma train_step_emits step : emits train_event (train_step C step).
Proof. unfold train_step. emits_walk; exact I. Qed.

Lemma checkpoint_emits p step : emits ckpt_event (checkpoint C p step).
Proof. unfold checkpoint. emits_walk; exact I. Qed.

Lemma val_losses_emits k n : emits round_event (val_losses C k n).
Proof.
  induction n as [|n IH]; simpl.
  - emits_walk; exact I.
  - apply emits_bind; [by apply emits_call|]. intros [i|]; [|apply emits_ret].
    apply emits_bind; [by apply emits_call|]. intros l.
    apply emits_bind; [apply IH|]. intros ls. apply emits_ret.
Qed.

Lemma validate_emits p step k : emits round_event (validate C p step k).
Proof.
  unfold validate. apply emits_bind; [by apply emits_call|]. intros _.
  apply emits_bind; [apply val_losses_emits|]. intros ls.
  emits_walk; exact I.
Qed.

Lemma validate_all_emits p step ks :
  emits round_event (validate_all C p step ks).
Proof.
  induction ks as [|k ks IH]; simpl; [apply emits_ret|].
  apply emits_bind; [apply validate_emits|]. intros _. apply IH.
Qed.

Lemma run_task_emits t gvb step : emits round_event (run_task C t gvb step).
Proof. unfold run_task. emits_walk; exact I. Qed.

Lemma benchmarks_emits gvb step : emits round_event (benchmarks C gvb step).
Proof.
  unfold benchmarks.
  repeat (apply emits_bind; [apply run_task_emits|intros _]).
  apply run_task_emits.
Qed.

Lemma eval_round_emits p gvb step :
  emits round_event (eval_round C p gvb step).
Proof.
  unfold eval_round. apply emits_bind; [apply validate_all_emits|].
  intros _. apply benchmarks_emits.
Qed.

Lemma evaluation_emits p gvb step :
  emits round_event (evaluation C p gvb step).
Proof.
  unfold evaluation. apply emits_bind; [apply emits_lift|]. intros m.
  destruct (m =? 0); [apply eval_round_emits|apply emits_ret].
Qed.

Lemma events_iteration p gvb step w :
  result ((train_step C step ;;; checkpoint C p step) w) = Ok tt →
  events (iteration C p gvb step w) =
    events (train_step C step w) ++
    events (checkpoint C p step (world (train_step C step w))) ++
    events (evaluation C p gvb step
              (world ((train_step C step ;;; checkpoint C p step) w))).
Proof.
  intros Hpre. unfold iteration.
  pose proof Hpre as Hpre'. apply bind_Ok_inv in Hpre' as ([] & Ht & Hc).
  rewrite events_bind, Ht. cbv beta.
  rewrite events_bind, Hc. cbv beta.
  rewrite events_bind, world_bind, Ht.
  destruct (result (evaluation _ _ _ _ _)); simpl; by rewrite app_nil_r.
Qed.

Lemma checkpoint_zero p step w :
  ckpt_every p = 0 →
  checkpoint C p step w = (Raise ZeroDivisionError, w, []).
Proof. intros Hz. unfold checkpoint, py_mod, bind, lift. by rewrite Hz. Qed.

Lemma checkpoint_skip p step w :
  ckpt_every p ≠ 0 →
  (step mod ckpt_every p =? 0) && negb (step =? 0) = false →
  checkpoint C p step w = (Ok tt, w, []).
Proof.
  intros Hz Hd. unfold checkpoint, py_mod, bind, lift.
  apply Z.eqb_neq in Hz. by rewrite Hz, Hd.
Qed.

Lemma checkpoint_write p step w :
  ckpt_every p ≠ 0 →
  (step mod ckpt_every p =? 0) && negb (step =? 0) = true →
  checkpoint C p step w =
    (c <- call EvGetState (c_get_state C) ;;
     k <- lift (py_mod step (keep_every p)) ;;
     call (EvSave (ckpt_save_args step c k))
          (c_save C (ckpt_save_args step c k))) w.
Proof.
  intros Hz Hd. unfold checkpoint at 1. unfold py_mod at 1.
  apply Z.eqb_neq in Hz. rewrite Hz. unfold bind at 1, lift at 1.
  rewrite Hd.
  by destruct (bind _ _ w) as [[r w1] t1].
Qed.



End StepLoop.

(** ** Evaluation rounds as runs of the collaborators *)

Section RoundRuns.
Context `{Carriers} {W : Type} (C : Collab W).

(** A pass that returns has run as [pass_run] says. *)
Lemma val_losses_run k n w ls w' t :
  val_losses C k n w = (Ok ls, w', t) → pass_run C k n w t ls w'.
Proof.
  revert w ls w' t. induction n as [|n IH]; intros w ls w' t.
  - simpl. unfold bind, call, ret.
    destruct (c_next C k w) as [[[b|]|e] w1] eqn:Hn;
      intros [= <- <- <-]; simpl.
    + by eapply pass_range_end.
    + by apply pass_exhausted.
  - cbn [val_losses]. unfold bind at 1, call at 1.
    destruct (c_next C k w) as [[[b|]|e] w1] eqn:Hn.
    + unfold bind at 1, call at 1.
      destruct (c_eval C b w1) as [[l|e] w2] eqn:He; [|done].
      unfold bind at 1.
      destruct (val_losses C k n w2) as [[[ls1|e] w3] t3] eqn:Hv; [|done].
      unfold ret. intros [= <- <- <-]. simpl. rewrite app_nil_r.
      eapply pass_step; [done..|]. by apply IH.
    + unfold ret. intros [= <- <- <-]. simpl. by apply pass_exhausted.
    + done.
Qed.

(** Validation passes that return have run as [passes_run] says. *)
Lemma validate_all_run p step ks w w' t :
  validate_all C p step ks w = (Ok tt, w', t) →
  passes_run C (Z.to_nat (val_batches p)) step ks w t w'.
Proof.
  revert w w' t. induction ks as [|k ks IH]; intros w w' t.
  - simpl. unfold ret. intros [= <- <-]. constructor.
  - cbn [validate_all]. unfold bind at 1. unfold validate.
    unfold bind at 1, call at 1.
    destruct (c_sample_once C k w) as [[[]|e] w1] eqn:Hs; [|done].
    unfold bind at 1.
    destruct (val_losses C k _ w1) as [[[ls|e] w2] t2] eqn:Hv; [|done].
    unfold bind at 1, print at 1, call at 1.
    destruct (c_wandb_log C _ step w2) as [[[]|e] w3] eqn:Hl; [|done].
    destruct (validate_all C p step ks w3) as [[[[]|e] w4] t4] eqn:Hr;
      [|done].
    intros [= <- <-]. simpl. rewrite <- app_assoc. simpl.
    eapply passes_next; [done| |done|by apply IH].
    by apply val_losses_run.
Qed.

Lemma run_task_inv t gvb step w w' tr :
  run_task C t gvb step w = (Ok tt, w', tr) →
  ∃ r w1,
    c_task_run C t gvb w = (Ok r, w1) ∧
    c_wandb_log C (TaskResults r) step w1 = (Ok tt, w') ∧
    tr = [EvTaskRun t gvb; EvWandbLog (TaskResults r) step;
          EvPrint (MsgResults r)].
Proof.
  unfold run_task, bind, call, print.
  destruct (c_task_run C t gvb w) as [[r|e] w1] eqn:Hr; [|done].
  destruct (c_wandb_log C _ step w1) as [[[]|e] w2] eqn:Hl; [|done].
  intros [= <- <-]. by exists r, w1.
Qed.

(** Lines 133-147, when they return, have run the four tasks as
    [tasks_run] says. *)
Lemma benchmarks_run gvb step w w' t :
  benchmarks C gvb step w = (Ok tt, w', t) →
  tasks_run C gvb step [Lambada; Winogrande; Piqa; HellaSwag] w t w'.
Proof.
  unfold benchmarks. unfold bind at 1.
  destruct (run_task C Lambada gvb step w) as [[[[]|e] w1] t1] eqn:H1;
    [|done].
  unfold bind at 1.
  destruct (run_task C Winogrande gvb step w1) as [[[[]|e] w2] t2] eqn:H2;
    [|done].
  unfold bind at 1.
  destruct (run_task C Piqa gvb step w2) as [[[[]|e] w3] t3] eqn:H3;
    [|done].
  destruct (run_task C HellaSwag gvb step w3) as [[[[]|e] w4] t4] eqn:H4;
    [|done].
  intros [= <- <-].
  apply run_task_inv in H1 as (r1 & v1 & Hr1 & Hl1 & ->).
  apply run_task_inv in H2 as (r2 & v2 & Hr2 & Hl2 & ->).
  apply run_task_inv in H3 as (r3 & v3 & Hr3 & Hl3 & ->).
  apply run_task_inv in H4 as (r4 & v4 & Hr4 & Hl4 & ->).
  simpl.
  eapply tasks_next; [done..|]. eapply tasks_next; [done..|].
  eapply tasks_next; [done..|]. eapply tasks_next; [done..|].
  constructor.
Qed.

(** An evaluation round that returns has run as [round_run] says. *)
Lemma eval_round_run p gvb step w w' t :
  eval_round C p gvb step w = (Ok tt, w', t) →
  round_run C p gvb step w t w'.
Proof.
  unfold eval_round, bind.
  destruct (validate_all C p step (val_names p) w)
    as [[[[]|e] w1] tv] eqn:Hv; [|done].
  destruct (benchmarks C gvb step w1) as [[[[]|e] w2] tb] eqn:Hb; [|done].
  intros [= <- <-]. exists tv, w1, tb. split; [done|]. split.
  - by apply validate_all_run.
  - by apply benchmarks_run.
Qed.

(** An iteration whose lines 112-119 return goes on with the evaluation
    of line 121 and, when that returns, increments the step. *)
Lemma iteration_after_prefix p gvb step w :
  result ((train_step C step ;;; checkpoint C p step) w) = Ok tt →
  iteration C p gvb step w =
    (match result (evaluation C p gvb step
                     (world ((train_step C step ;;;
                              checkpoint C p step) w))) with
     | Ok _ => Ok (step + 1)
     | Raise e => Raise e
     end,
     world (evaluation C p gvb step
              (world ((train_step C step ;;; checkpoint C p step) w))),
     events ((train_step C step ;;; checkpoint C p step) w) ++
     events (evaluation C p gvb step
               (world ((train_step C step ;;; checkpoint C p step) w)))).
Proof.
  unfold iteration, bind, ret, result, world, events.
  destruct (train_step C step w) as [[[[]|e] w1] t1]; [|done].
  destruct (checkpoint C p step w1) as [[[[]|e] w2] t2]; [|done].
  intros _. simpl.
  destruct (evaluation C p gvb step w2) as [[[[]|e] w3] t3]; simpl;
    by rewrite ?app_nil_r, ?app_assoc.
Qed.

End RoundRuns.

(** ** The evaluation schedule *)

Section Evaluation.
Context `{Carriers} {W : Type} (C : Collab W).

Lemma evaluation_zero p gvb step w :
  val_every p = 0 →
  evaluation C p gvb step w = (Raise ZeroDivisionError, w, []).
Proof. intros Hz. unfold evaluation, py_mod, bind, lift. by rewrite Hz. Qed.

Lemma evaluation_skip p gvb step w :
  val_every p ≠ 0 → step mod val_every p ≠ 0 →
  evaluation C p gvb step w = (Ok tt, w, []).
Proof.
  intros Hz Hd. unfold evaluation, py_mod, bind, lift.
  apply Z.eqb_neq in Hz, Hd. by rewrite Hz, Hd.
Qed.

Lemma evaluation_round p gvb step w :
  val_every p ≠ 0 → step mod val_every p = 0 →
  evaluation C p gvb step w = eval_round C p gvb step w.
Proof.
  intros Hz Hd. unfold evaluation, py_mod, bind, lift.
  apply Z.eqb_neq in Hz. apply Z.eqb_eq in Hd. rewrite Hz, Hd.
  by destruct (eval_round _ _ _ _ w) as [[r w1] t1].
Qed.

(** A round makes at least one call: the first validation pass, or the
    first task when no validation set is configured. *)
Lemma eval_round_starts p gvb step w :
  ∃ ev rest, events (eval_round C p gvb step w) = ev :: rest.
Proof.
  unfold eval_round. rewrite events_bind.
  destruct (val_names p) as [|k ks]; simpl.
  - unfold benchmarks, run_task. rewrite !events_bind, events_call.
    simpl. eauto.
  - unfold validate. rewrite !events_bind, events_call. simpl. eauto.
Qed.

Lemma eval_round_Exists p gvb step w :
  Exists round_event (events (eval_round C p gvb step w)).
Proof.
  pose proof (eval_round_emits C p gvb step w) as HF.
  destruct (eval_round_starts p gvb step w) as (ev & rest & Heq).
  rewrite Heq in HF |- *. apply Exists_cons_hd. by inversion HF.
Qed.

Lemma train_not_round (ev : event) : train_event ev → ¬ round_event ev.
Proof. unfold train_event, ckpt_event, round_event. repeat case_match; tauto. Qed.

Lemma ckpt_not_round (ev : event) : ckpt_event ev → ¬ round_event ev.
Proof. unfold train_event, ckpt_event, round_event. repeat case_match; tauto. Qed.

(** C6: in an iteration of the step loop that gets past its training
    call and its checkpoint block, an evaluation round takes place
    exactly when [step % val_every == 0], in particular at step 0.
    When the step is not due, the iteration makes no call after the
    checkpoint block.  When it is due, the calls of lines 122-147
    follow, and in an iteration that returns they are a whole round:
    for every configured validation set in turn a pass that pulls
    batches, evaluates them and reports the mean of their losses under
    this step, then the four benchmark tasks, each run and reported. *)
Theorem evaluation_iff_due p gvb step w :
  result ((train_step C step ;;; checkpoint C p step) w) = Ok tt →
  val_every p ≠ 0 →
  (Exists round_event (events (iteration C p gvb step w)) ↔
   step mod val_every p = 0) ∧
  (step = 0 → Exists round_event (events (iteration C p gvb step w))) ∧
  (step mod val_every p ≠ 0 →
   events (iteration C p gvb step w) =
     events ((train_step C step ;;; checkpoint C p step) w)) ∧
  (step mod val_every p = 0 →
   ∃ t,
     events (iteration C p gvb step w) =
       events ((train_step C step ;;; checkpoint C p step) w) ++ t ∧
     (∀ s, result (iteration C p gvb step w) = Ok s →
           round_run C p gvb step
             (world ((train_step C step ;;; checkpoint C p step) w))
             t (world (iteration C p gvb step w)))).
Proof.
  intros Hpre Hz.
  assert (Hiff : Exists round_event (events (iteration C p gvb step w)) ↔
                 step mod val_every p = 0).
  { rewrite (events_iteration _ _ _ _ _ Hpre).
    pose proof (train_step_emits C step w) as Ht.
    pose proof (checkpoint_emits C p step (world (train_step C step w)))
      as Hc.
    rewrite !Exists_app. split.
    - intros [Hex|[Hex|Hex]].
      + apply Exists_exists in Hex as (ev & Hin & Hr).
        rewrite Forall_forall in Ht. by destruct (train_not_round ev (Ht _ Hin)).
      + apply Exists_exists in Hex as (ev & Hin & Hr).
        rewrite Forall_forall in Hc. by destruct (ckpt_not_round ev (Hc _ Hin)).
      + destruct (decide (step mod val_every p = 0)) as [|Hd]; [done|].
        rewrite evaluation_skip in Hex by done. by inversion Hex.
    - intros Hd. right; right. rewrite evaluation_round by done.
      apply eval_round_Exists. }
  split; [done|]. split.
  { intros ->. apply Hiff. apply Zmod_0_l. }
  rewrite (iteration_after_prefix C p gvb step w Hpre).
  set (wp := world ((train_step C step ;;; checkpoint C p step) w)).
  split.
  - intros Hd. rewrite evaluation_skip by done.
    unfold events at 1 3. simpl. by rewrite app_nil_r.
  - intros Hd. rewrite evaluation_round by done.
    exists (events (eval_round C p gvb step wp)). split; [done|].
    intros s.
    destruct (eval_round C p gvb step wp) as [[[[]|e] w'] t] eqn:Hr;
      [|done].
    intros _. by apply eval_round_run.
Qed.

End Evaluation.

(** ** Traces seen through a projection *)

Section Follows.
Context `{Carriers} {W X : Type} (f : event → option X).

Lemma view_app (t1 t2 : list event) :
  view f (t1 ++ t2) = view f t1 ++ view f t2.
Proof. apply omap_app. Qed.

Lemma follows_ret {A} (a : A) : follows f [] (@ret _ W A a).
Proof. intros w. split; [apply prefix_nil|done]. Qed.

Lemma follows_raise {A} L e : follows f L (@raise _ W A e).
Proof. intros w. split; [apply prefix_nil|done]. Qed.

Lemma follows_lift {A} (r : res A) : follows f [] (@lift _ W A r).
Proof. intros w. split; [apply prefix_nil|done]. Qed.

Lemma follows_call_hidden {A} ev (op : W → res A * W) :
  f ev = None → follows f [] (call ev op).
Proof.
  intros Hf w. rewrite events_call. unfold view. simpl. rewrite Hf.
  split; [apply prefix_nil|done].
Qed.

Lemma follows_call_shown {A} ev x (op : W → res A * W) :
  f ev = Some x → follows f [x] (call ev op).
Proof.
  intros Hf w. rewrite events_call. unfold view. simpl. rewrite Hf.
  split; done.
Qed.

Lemma follows_print_hidden m :
  f (EvPrint m) = None → follows f [] (@print _ W m).
Proof.
  intros Hf w. unfold print, events, view. simpl. rewrite Hf.
  split; [apply prefix_nil|done].
Qed.

Lemma follows_bind {A B} L1 L2 (m : M W A) (g : A → M W B) :
  follows f L1 m → (∀ a, follows f L2 (g a)) →
  follows f (L1 ++ L2) (bind m g).
Proof.
  intros Hm Hg w. destruct (Hm w) as [Hp Hok].
  rewrite events_bind, result_bind, view_app.
  destruct (result (m w)) as [a|e] eqn:Hr.
  - rewrite (Hok a eq_refl). destruct (Hg a (world (m w))) as [Hp2 Hok2].
    split; [by apply prefix_app|].
    intros b Hb. by rewrite (Hok2 b Hb).
  - simpl. rewrite app_nil_r. split; [|done].
    by apply prefix_app_r.
Qed.

Lemma follows_bind_hidden {A B} L (m : M W A) (g : A → M W B) :
  follows f [] m → (∀ a, follows f L (g a)) → follows f L (bind m g).
Proof. apply (follows_bind [] L). Qed.

End Follows.

(** ** The order of an evaluation round *)

Section RoundOrder.
Context `{Carriers} {W : Type} (C : Collab W).

Lemma val_losses_val_events k n : emits val_event (val_losses C k n).
Proof.
  induction n as [|n IH]; simpl.
  - emits_walk; exact I.
  - apply emits_bind; [by apply emits_call|]. intros [i|]; [|apply emits_ret].
    apply emits_bind; [by apply emits_call|]. intros l.
    apply emits_bind; [apply IH|]. intros ls. apply emits_ret.
Qed.

Lemma validate_all_val_events p step ks :
  emits val_event (validate_all C p step ks).
Proof.
  induction ks as [|k ks IH]; simpl; [apply emits_ret|].
  apply emits_bind; [|intros _; apply IH].
  unfold validate. apply emits_bind; [by apply emits_call|]. intros _.
  apply emits_bind; [apply val_losses_val_events|]. intros ls.
  emits_walk; exact I.
Qed.

Lemma benchmarks_task_events gvb step :
  emits task_event (benchmarks C gvb step).
Proof. unfold benchmarks, run_task. emits_walk; exact I. Qed.

Lemma val_losses_follows k n :
  follows round_op_of [] (val_losses C k n).
Proof.
  induction n as [|n IH]; simpl.
  - apply follows_bind_hidden; [by apply follows_call_hidden|].
    intros [i|]; apply follows_ret.
  - apply follows_bind_hidden; [by apply follows_call_hidden|].
    intros [i|]; [|apply follows_ret].
    apply follows_bind_hidden; [by apply follows_call_hidden|]. intros l.
    apply follows_bind_hidden; [apply IH|]. intros ls. apply follows_ret.
Qed.

Lemma validate_follows p step k :
  follows round_op_of [OpValLoss k] (validate C p step k).
Proof.
  unfold validate.
  apply follows_bind_hidden; [by apply follows_call_hidden|]. intros _.
  apply follows_bind_hidden; [apply val_losses_follows|]. intros ls.
  apply follows_bind_hidden; [by apply follows_print_hidden|]. intros _.
  by apply follows_call_shown.
Qed.

Lemma validate_all_follows p step ks :
  follows round_op_of (OpValLoss <$> ks) (validate_all C p step ks).
Proof.
  induction ks as [|k ks IH]; simpl; [apply follows_ret|].
  apply (follows_bind _ [OpValLoss k]); [apply validate_follows|].
  intros _. apply IH.
Qed.

Lemma run_task_follows t gvb step :
  follows round_op_of [OpTask t] (run_task C t gvb step).
Proof.
  unfold run_task.
  apply (follows_bind _ [OpTask t] []); [by apply follows_call_shown|].
  intros r.
  apply follows_bind_hidden; [by apply follows_call_hidden|]. intros _.
  by apply follows_print_hidden.
Qed.

Lemma benchmarks_follows gvb step :
  follows round_op_of (OpTask <$> task_order) (benchmarks C gvb step).
Proof.
  unfold benchmarks, task_order.
  apply (follows_bind _ [OpTask Lambada]); [apply run_task_follows|].
  intros _.
  apply (follows_bind _ [OpTask Winogrande]); [apply run_task_follows|].
  intros _.
  apply (follows_bind _ [OpTask Piqa]); [apply run_task_follows|].
  intros _. apply run_task_follows.
Qed.

Lemma eval_round_follows p gvb step :
  follows round_op_of (round_schedule p) (eval_round C p gvb step).
Proof.
  unfold eval_round, round_schedule.
  apply follows_bind; [apply validate_all_follows|].
  intros _. apply benchmarks_follows.
Qed.

(** C9: the calls of an evaluation round split into the calls of the
    validation passes followed by the calls of the benchmark tasks;
    the validation reports and the task runs follow one list fixed by
    the configuration (the validation sets in their configured order,
    then lambada, winogrande, piqa, hellaswag), whatever the step and
    the world: a round that raises shows a prefix of it, a round that
    returns shows all of it.  A round that returns has, call by call,
    first run for every configured validation set a pass that pulls
    batches, calls [t.eval] on each and reports the mean of the losses
    it returned, and only then run and reported the four tasks in
    their order. *)
Theorem eval_round_order p gvb step w :
  (∃ vs ts, events (eval_round C p gvb step w) = vs ++ ts ∧
            Forall val_event vs ∧ Forall task_event ts) ∧
  view round_op_of (events (eval_round C p gvb step w))
    `prefix_of` round_schedule p ∧
  (result (eval_round C p gvb step w) = Ok tt →
   view round_op_of (events (eval_round C p gvb step w)) =
     (OpValLoss <$> val_names p) ++
     [OpTask Lambada; OpTask Winogrande; OpTask Piqa; OpTask HellaSwag]) ∧
  (result (eval_round C p gvb step w) = Ok tt →
   round_run C p gvb step w (events (eval_round C p gvb step w))
     (world (eval_round C p gvb step w))).
Proof.
  split; [|split; [|split]].
  - unfold eval_round. rewrite events_bind.
    eexists _, _. split; [done|]. split.
    + apply validate_all_val_events.
    + destruct (result _); [apply benchmarks_task_events|constructor].
  - apply eval_round_follows.
  - intros Hok. exact (proj2 (eval_round_follows p gvb step w) tt Hok).
  - destruct (eval_round C p gvb step w) as [[[[]|e] w'] t] eqn:Hr;
      [|done].
    intros _. by apply eval_round_run.
Qed.

End RoundOrder.

(** ** The attempt before its loop *)

Section Setup.
Context `{Carriers} {W : Type} (C : Collab W).

Lemma follows_hidden {X A} (f : event → option X) (m : M W A) :
  emits (λ ev, f ev = None) m → follows f [] m.
Proof.
  intros Hm w. specialize (Hm w).
  assert (Hnil : view f (events (m w)) = []).
  { unfold view. induction Hm as [|ev t Hev _ IH]; [done|].
    simpl. by rewrite Hev. }
  rewrite Hnil. split; [apply prefix_nil|done].
Qed.

Lemma emits_impl {A} (P Q : event → Prop) (m : M W A) :
  (∀ ev, P ev → Q ev) → emits P m → emits Q m.
Proof. intros HPQ Hm w. eapply Forall_impl; [apply Hm|done]. Qed.

Lemma follows_bind_end {X A B} (f : event → option X) L
    (m : M W A) (g : A → M W B) :
  follows f L m → (∀ a, follows f [] (g a)) → follows f L (bind m g).
Proof.
  intros Hm Hg. rewrite <- (app_nil_r L). by apply follows_bind.
Qed.

Lemma make_val_sets_emits (P : event → Prop) gvb sq items :
  (∀ d path bs n r, P (EvNewInputs d path bs n r)) →
  emits P (make_val_sets C gvb sq items).
Proof.
  intros HP.
  induction items as [|[k v] items IH]; simpl; [apply emits_ret|].
  apply emits_bind; [by apply emits_call|]. intros _. apply IH.
Qed.

Lemma make_val_sets_setup gvb sq items :
  emits setup_event (make_val_sets C gvb sq items).
Proof. by apply make_val_sets_emits. Qed.


(** Everything [main] calls before line 100 is a set-up call. *)
Lemma before_warm_up_setup a p :
  emits setup_event
    (confirm_new C a p ;;; check_pe p ;;;
     call EvBuildModel (c_build_model C p a)).
Proof. unfold confirm_new, check_pe. emits_walk; exact I. Qed.



End Setup.

(** ** Batches drawn and steps counted *)

Section Batches.
Context `{Carriers} {W : Type} (C : Collab W).




Lemma compile_eval_sets_emits ks :
  emits (λ ev, match ev with
               | EvGetSamples (DsVal _) | EvEval _ => True
               | _ => False
               end) (compile_eval_sets C ks).
Proof.
  induction ks as [|k ks IH]; simpl; [apply emits_ret|].
  apply emits_bind; [by apply emits_call|]. intros b.
  apply emits_bind; [by apply emits_call|]. intros _. apply IH.
Qed.




Lemma checkpoint_hidden {X} (f : event → option X) p step :
  (∀ ev, ckpt_event ev → f ev = None) →
  follows f [] (checkpoint C p step).
Proof.
  intros Hf. apply follows_hidden.
  eapply emits_impl; [exact Hf|apply checkpoint_emits].
Qed.

Lemma evaluation_hidden {X} (f : event → option X) p gvb step :
  (∀ ev, round_event ev → f ev = None) →
  follows f [] (evaluation C p gvb step).
Proof.
  intros Hf. apply follows_hidden.
  eapply emits_impl; [exact Hf|apply evaluation_emits].
Qed.


(** One iteration reports its training loss once, under its step. *)
Lemma iteration_counted p gvb step :
  follows counted_step [step] (iteration C p gvb step).
Proof.
  unfold iteration. apply follows_bind_end.
  - unfold train_step.
    apply follows_bind_hidden; [by apply follows_call_hidden|]. intros b.
    apply follows_bind_hidden; [by apply follows_call_hidden|]. intros r.
    by apply follows_call_shown.
  - intros _. apply follows_bind_hidden.
    { apply checkpoint_hidden. classify_event. }
    intros _. apply follows_bind_hidden.
    { apply evaluation_hidden. classify_event. }
    intros _. apply follows_ret.
Qed.

(** An iteration that returns has incremented the step. *)
Lemma iteration_result p gvb step w s :
  result (iteration C p gvb step w) = Ok s → s = step + 1.
Proof.
  unfold iteration. intros Hr.
  apply bind_Ok_inv in Hr as (? & _ & Hr).
  apply bind_Ok_inv in Hr as (? & _ & Hr).
  apply bind_Ok_inv in Hr as (? & _ & Hr).
  by inversion Hr.
Qed.


Lemma step_loop_counted p gvb n step w :
  view counted_step (events (step_loop C p gvb n step w))
    `prefix_of` steps_from step n ∧
  (∀ s, result (step_loop C p gvb n step w) = Ok s →
        view counted_step (events (step_loop C p gvb n step w)) =
          steps_from step n ∧
        s = step + Z.of_nat n).
Proof.
  revert step w. induction n as [|n IH]; intros step w.
  - simpl. split; [done|]. intros s Hs. inversion Hs. split; [done|lia].
  - cbn [step_loop steps_from].
    destruct (iteration_counted p gvb step w) as [Hp Hok].
    rewrite events_bind, result_bind, view_app.
    destruct (result (iteration C p gvb step w)) as [s1|e] eqn:Hr.
    + rewrite (Hok s1 eq_refl).
      apply iteration_result in Hr as ->.
      destruct (IH (step + 1) (world (iteration C p gvb step w)))
        as [Hp2 Hok2].
      split; [by apply (prefix_app [step])|].
      intros s Hs. destruct (Hok2 s Hs) as [-> ->]. split; [done|lia].
    + rewrite app_nil_r. split; [|done].
      by apply (prefix_app_r _ [step]).
Qed.


End Batches.

(** ** Falling back to the last checkpoint *)

Section Fallback.
Context `{Carriers} {W : Type} (C : Collab W).

(** C8: when the initial save raises an [Exception], the attempt
    prints it and loads the checkpoint; when the loaded payload has no
    ["train_loader"] entry it prints the warning, goes on from the
    loaded step with no cursor to restore, and the rest of the attempt
    runs: its first call builds the training provider with
    [restore_state=None]. *)
Theorem fallback_without_cursor fuel a p first w e w1 step
    (aux : gmap string cstate) w2 n :
  c_save C (init_save_args a first) w = (Raise e, w1) →
  is_Exception e = true →
  c_load C w1 = (Ok (step, aux), w2) →
  aux !! "train_loader"%string = None →
  global_batch p = Ok n →
  init_or_load C a first w =
    (Ok (step, None), w2,
     [EvSave (init_save_args a first); EvPrint (MsgSaveFailed e);
      EvLoad; EvPrint MsgRestoreFailed]) ∧
  (sr <- init_or_load C a first ;; train_from C fuel p sr.1 sr.2) w =
    (result (train_from C fuel p step None w2),
     world (train_from C fuel p step None w2),
     [EvSave (init_save_args a first); EvPrint (MsgSaveFailed e);
      EvLoad; EvPrint MsgRestoreFailed] ++
     events (train_from C fuel p step None w2)) ∧
  ∃ rest,
    events (train_from C fuel p step None w2) =
      EvNewInputs DsTrain ("data/" +:+ train_set p)
        [default 1 (gradient_accumulation_steps p); n] (seq p) None
      :: rest.
Proof.
  intros Hsave He Hload Haux Hgb.
  assert (Hinit : init_or_load C a first w =
    (Ok (step, None), w2,
     [EvSave (init_save_args a first); EvPrint (MsgSaveFailed e);
      EvLoad; EvPrint MsgRestoreFailed])).
  { unfold init_or_load, try_except_Exception.
    unfold bind at 1, call at 1. rewrite Hsave, He.
    unfold bind, print, call. rewrite Hload. simpl. rewrite Haux.
    simpl. done. }
  split; [done|]. split.
  - unfold bind at 1. rewrite Hinit. simpl.
    by destruct (train_from C fuel p step None w2) as [[r w3] t3].
  - unfold train_from, make_train_dataset.
    rewrite events_bind, events_bind. unfold lift at 1 2. simpl.
    rewrite Hgb. simpl. rewrite events_call. simpl. eauto.
Qed.

End Fallback.

(** ** Destructive initialization *)

Section CleanStart.
Context `{Carriers} {W : Type} (C : Collab W).

Lemma step_loop_emits (P : event → Prop) p gvb n step :
  (∀ s, emits P (iteration C p gvb s)) →
  emits P (step_loop C p gvb n step).
Proof.
  intros Hit. revert step. induction n as [|n IH]; intros step; simpl.
  - apply emits_ret.
  - apply emits_bind; [apply Hit|]. intros s. apply IH.
Qed.

Lemma iteration_saves a first p gvb step :
  emits (save_of_main a first) (iteration C p gvb step).
Proof.
  unfold iteration. apply emits_bind.
  { eapply emits_impl; [|apply train_step_emits]. classify_event. }
  intros _. apply emits_bind.
  { unfold checkpoint. emits_walk; simpl; auto. }
  intros _. apply emits_bind; [|intros _; apply emits_ret].
  eapply emits_impl; [|apply evaluation_emits]. classify_event.
Qed.

(** Every save of an attempt is its initial save or a later,
    non-initial one. *)
Lemma main_saves fuel a p first :
  emits (save_of_main a first) (main C fuel a p first).
Proof.
  unfold main. apply emits_bind.
  { unfold confirm_new. emits_walk; exact I. }
  intros _. apply emits_bind; [unfold check_pe; emits_walk|].
  intros _. apply emits_bind; [by apply emits_call|].
  intros _. apply emits_bind.
  { unfold init_or_load. emits_walk; simpl; auto. }
  intros sr. unfold train_from. apply emits_bind.
  { unfold make_train_dataset. emits_walk. exact I. }
  intros _. apply emits_bind; [apply emits_lift|].
  intros gvb. apply emits_bind.
  { by apply make_val_sets_emits. }
  intros _. apply emits_bind.
  { unfold make_tasks. emits_walk; exact I. }
  intros _. apply emits_bind.
  { unfold warm_up, compile_eval, compile_train.
    apply emits_bind; [emits_walk; exact I|]. intros _.
    apply emits_bind; [|intros _; by apply emits_call].
    apply emits_bind; [|intros _; by apply emits_print].
    eapply emits_impl; [|apply compile_eval_sets_emits]. classify_event. }
  intros _. apply step_loop_emits. intros s. apply iteration_saves.
Qed.

Lemma save_of_main_restart a (ev : event) :
  save_of_main a false ev → non_destructive ev.
Proof.
  destruct ev as [| | |sa| | | | | | | | | | | |]; try done. simpl.
  intros [->|[Hi Ho]].
  - unfold init_save_args, clean_start. simpl.
    rewrite andb_false_r. done.
  - rewrite Hi, Ho. done.
Qed.

(** After the first attempt the supervisor never issues a destructive
    save. *)
Lemma supervisor_restart_non_destructive attempts fuel a p w :
  Forall non_destructive (events (supervisor C attempts fuel a p false w)).
Proof.
  revert w. induction attempts as [|n IH]; intros w; simpl; [constructor|].
  pose proof (main_saves fuel a p false w) as Hm.
  unfold events in *.
  destruct (main C fuel a p false w) as [[[s|e] w1] t1]; simpl in *.
  - eapply Forall_impl; [exact Hm|apply save_of_main_restart].
  - destruct (is_KeyboardInterrupt e); simpl.
    + eapply Forall_impl; [exact Hm|apply save_of_main_restart].
    + specialize (IH w1).
      destruct (supervisor C n fuel a p false w1) as [[r w2] t2]. simpl in *.
      apply Forall_app. split; [|done].
      eapply Forall_impl; [exact Hm|apply save_of_main_restart].
Qed.

(** The supervisor's trace is the first attempt's, followed by that of
    the attempts run with [first = False]. *)
Lemma supervisor_first_then_restarts attempts fuel a p first w :
  ∃ later,
    events (supervisor C (S attempts) fuel a p first w) =
      events (main C fuel a p first w) ++ later ∧
    Forall non_destructive later.
Proof.
  simpl. unfold events.
  destruct (main C fuel a p first w) as [[[s|e] w1] t1]; simpl.
  - exists []. by rewrite app_nil_r.
  - destruct (is_KeyboardInterrupt e); simpl.
    + exists []. by rewrite app_nil_r.
    + pose proof (supervisor_restart_non_destructive attempts fuel a p w1)
        as Hl. unfold events in Hl.
      destruct (supervisor C attempts fuel a p false w1) as [[r w2] t2].
      by exists t2.
Qed.

Lemma main_destructive fuel a p first w :
  Exists destructive (events (main C fuel a p first w)) →
  new a = true ∧ first = true.
Proof.
  intros Hex. apply Exists_exists in Hex as (ev & Hin & Hd).
  pose proof (main_saves fuel a p first w) as Hm.
  rewrite Forall_forall in Hm. specialize (Hm ev Hin).
  destruct ev as [| | |sa| | | | | | | | | | | |]; try done.
  simpl in *. destruct Hm as [->|[_ Ho]]; [|congruence].
  unfold init_save_args, clean_start in Hd. simpl in Hd.
  by apply andb_true_iff; congruence.
Qed.

End CleanStart.

(** The initial save of the reference world, issued with
  [overwrite=False], leaves every checkpoint in place. *)
Lemma sim_save_init_keeps (sa : @save_args sim_carriers) (ws : sim) c :
@sa_init sim_carriers sa = true →
@sa_overwrite sim_carriers sa = Some false →
c ∈ ckpts ws → c ∈ ckpts (sim_save sa ws).2.
Proof.
intros Hi Ho Hc. unfold sim_save. rewrite Hi, Ho.
destruct (ckpts ws) eqn:Hk; [by apply elem_of_nil in Hc|].
simpl. by rewrite Hk.
Qed.

(** C1: over a run of the script, a save with [overwrite=True] can only
  be issued by the first attempt, and only when [--new] was given:
  the trace is the first attempt's followed by that of the attempts
  run with [first = False], in which every save is non-destructive and
  every initial save carries [overwrite=False]; in the reference world
  such an initial save leaves every checkpoint in place. *)
Theorem destructive_init_gating `{Carriers} {W : Type} (C : Collab W)
  attempts fuel a p w :
∃ later,
  events (script C (S attempts) fuel a p w) =
    events (main C fuel a p true w) ++ later ∧
  (Exists destructive (events (main C fuel a p true w)) → new a = true) ∧
  Forall non_destructive later ∧
  (∀ first w', Exists destructive (events (main C fuel a p first w')) →
               new a = true ∧ first = true) ∧
  (∀ (sa : @save_args sim_carriers) ws c,
     @sa_init sim_carriers sa = true →
     @sa_overwrite sim_carriers sa = Some false →
     c ∈ ckpts ws → c ∈ ckpts (sim_save sa ws).2).
Proof.
destruct (supervisor_first_then_restarts C attempts fuel a p true w)
  as (later & Hev & Hl).
exists later. split; [exact Hev|]. split.
{ intros Hex. by apply (main_destructive C fuel a p true w). }
split; [exact Hl|]. split.
{ intros first w'. apply main_destructive. }
apply sim_save_init_keeps.
Qed.

(** ** The supervisor and the exceptions of an attempt *)

Section Supervisor.
Context `{Carriers} {W : Type} (C : Collab W).

(** C3, as the code has it: an attempt that raises anything but
    [KeyboardInterrupt] is followed by [main(False)] from the world it
    left, and the supervisor makes no call of its own in between, so
    nothing is printed or logged for the exception; an attempt that
    raises [KeyboardInterrupt] ends the script, with no further attempt
    and no further call. *)
Theorem supervisor_on_exception attempts fuel a p first w e :
  result (main C fuel a p first w) = Raise e →
  (is_KeyboardInterrupt e = true →
   supervisor C (S attempts) fuel a p first w =
     (SupExited, world (main C fuel a p first w),
      events (main C fuel a p first w))) ∧
  (is_KeyboardInterrupt e = false →
   supervisor C (S attempts) fuel a p first w =
     ((supervisor C attempts fuel a p false
         (world (main C fuel a p first w))).1.1,
      world (supervisor C attempts fuel a p false
               (world (main C fuel a p first w))),
      events (main C fuel a p first w) ++
      events (supervisor C attempts fuel a p false
                (world (main C fuel a p first w)))) ∧
   ∃ later,
     events (supervisor C (S (S attempts)) fuel a p first w) =
       events (main C fuel a p first w) ++
       events (main C fuel a p false (world (main C fuel a p first w))) ++
       later).
Proof.
  intros Hr. cbn [supervisor]. unfold result, world, events in *.
  destruct (main C fuel a p first w) as [[r w1] t1]. simpl in *. subst r.
  split; intros Hk; rewrite Hk; [done|].
  split.
  - by destruct (supervisor C attempts fuel a p false w1) as [[r w2] t2].
  - destruct (main C fuel a p false w1) as [[[s|e2] w2] t2]; simpl.
    + exists []. by rewrite app_nil_r.
    + destruct (is_KeyboardInterrupt e2); simpl.
      * exists []. by rewrite app_nil_r.
      * destruct (supervisor C attempts fuel a p false w2) as [[r w3] t3].
        simpl. by exists t3.
Qed.

End Supervisor.

(** ** A benchmark task that raises *)

Section TaskFailure.
Context `{Carriers} {W : Type} (C : Collab W).

Lemma bind_Ok_run {A B} (m : M W A) (g : A → M W B) w a :
  result (m w) = Ok a →
  bind m g w =
    (result (g a (world (m w))), world (g a (world (m w))),
     events (m w) ++ events (g a (world (m w)))).
Proof.
  unfold bind, result, world, events.
  destruct (m w) as [[r w1] t1]. simpl. intros ->.
  by destruct (g a w1) as [[r2 w2] t2].
Qed.

Lemma bind_assoc {A B D} (m : M W A) (g : A → M W B) (k : B → M W D) w :
  bind (bind m g) k w = bind m (λ x, bind (g x) k) w.
Proof.
  unfold bind. destruct (m w) as [[[x|e] w1] t1]; [|done].
  destruct (g x w1) as [[[y|e] w2] t2]; [|done].
  destruct (k y w2) as [[r w3] t3]. by rewrite app_assoc.
Qed.

Lemma run_tasks_app l1 l2 gvb step w :
  run_tasks C (l1 ++ l2) gvb step w =
  (run_tasks C l1 gvb step ;;; run_tasks C l2 gvb step) w.
Proof.
  revert w. induction l1 as [|t l1 IH]; intros w; simpl.
  - unfold bind, ret. by destruct (run_tasks C l2 gvb step w) as [[r w1] t1].
  - rewrite bind_assoc. unfold bind at 1 2.
    destruct (run_task C t gvb step w) as [[[[]|e] w1] t1]; [|done].
    by rewrite IH.
Qed.

(** Lines 133-147 are the four tasks in their order. *)
Lemma benchmarks_run_tasks gvb step w :
  benchmarks C gvb step w = run_tasks C task_order gvb step w.
Proof.
  unfold benchmarks, task_order. simpl. unfold bind, ret.
  repeat case_match; simplify_eq/=;
    repeat match goal with u : unit |- _ => destruct u end;
    rewrite ?app_nil_r; done.
Qed.

Lemma run_task_raises t gvb step w e w' :
  c_task_run C t gvb w = (Raise e, w') →
  run_task C t gvb step w = (Raise e, w', [EvTaskRun t gvb]).
Proof. intros Hr. unfold run_task, bind, call. by rewrite Hr. Qed.

Lemma run_tasks_runs_only ts gvb step :
  emits (λ ev, ∀ t bs, ev = EvTaskRun t bs → t ∈ ts)
    (run_tasks C ts gvb step).
Proof.
  induction ts as [|t ts IH]; simpl; [apply emits_ret|].
  apply emits_bind.
  - unfold run_task. emits_walk; intros t' bs Heq; simplify_eq.
    apply list_elem_of_here.
  - intros _. eapply emits_impl; [|apply IH].
    intros ev Hev t' bs Heq. apply list_elem_of_further. by eapply Hev.
Qed.

(** C4, as the code has it: when the [run] of a benchmark task raises,
    after the tasks before it in the order have run, the exception
    leaves lines 133-147 at once: the failing call is the last call of
    the round, no task after it in the order is run, and the evaluation
    round raises the same exception. *)
Theorem task_failure_aborts_round p gvb step pre t post w e w' :
  task_order = pre ++ t :: post →
  result (run_tasks C pre gvb step w) = Ok tt →
  c_task_run C t gvb (world (run_tasks C pre gvb step w)) = (Raise e, w') →
  benchmarks C gvb step w =
    (Raise e, w', events (run_tasks C pre gvb step w) ++ [EvTaskRun t gvb]) ∧
  (∀ t' bs, t' ∈ post →
            EvTaskRun t' bs ∉ events (benchmarks C gvb step w)) ∧
  (∀ w0, result (validate_all C p step (val_names p) w0) = Ok tt →
         world (validate_all C p step (val_names p) w0) = w →
         result (eval_round C p gvb step w0) = Raise e).
Proof.
  intros Hord Hpre Hrun.
  assert (Hb : benchmarks C gvb step w =
    (Raise e, w',
     events (run_tasks C pre gvb step w) ++ [EvTaskRun t gvb])).
  { rewrite benchmarks_run_tasks, Hord, run_tasks_app.
    rewrite (bind_Ok_run _ _ _ tt Hpre). cbn [run_tasks].
    unfold bind at 1 2 3. by rewrite (run_task_raises _ _ _ _ _ _ Hrun). }
  split; [exact Hb|]. split.
  - intros t' bs Hpost. rewrite Hb. unfold events at 1. simpl.
    rewrite elem_of_app, list_elem_of_singleton.
    assert (Hnd : NoDup (pre ++ t :: post)).
    { rewrite <- Hord. by apply (bool_decide_unpack _). }
    apply NoDup_app in Hnd as (_ & Hdisj & Hnd2).
    apply NoDup_cons in Hnd2 as [Hnt _].
    intros [Hin|Heq].
    + pose proof (run_tasks_runs_only pre gvb step w) as HF.
      rewrite Forall_forall in HF.
      apply (Hdisj t'); [by eapply HF|by apply list_elem_of_further].
    + simplify_eq. done.
  - intros w0 Hv Hw. unfold eval_round.
    rewrite (bind_Ok_run _ _ _ tt Hv), Hw, Hb. done.
Qed.

End TaskFailure.

(** ** Runs in the reference world *)

Section ReferenceRuns.
Existing Instance sim_carriers.

(** The checkpoint block decides [delete_old] from the step it is
    writing. *)
Lemma checkpoint_delete_old {W : Type} (C : Collab W) p step w sa :
  EvSave sa ∈ events (checkpoint C p step w) →
  sa_step sa = step ∧
  sa_delete_old sa = Some (negb (step mod keep_every p =? 0)).
Proof.
  destruct (decide (ckpt_every p = 0)) as [Hz|Hz].
  { rewrite checkpoint_zero by done. by intros Hin%elem_of_nil. }
  destruct ((step mod ckpt_every p =? 0) && negb (step =? 0)) eqn:Hd.
  - rewrite checkpoint_write by done.
    rewrite events_bind, events_call.
    destruct (result (call EvGetState _ w)) as [c|e];
      [|by intros [=]%list_elem_of_singleton].
    rewrite events_bind. unfold lift at 1 2 3, py_mod.
    destruct (keep_every p =? 0); simpl;
      [by intros [=]%list_elem_of_singleton|].
    rewrite events_call. simpl.
    rewrite !elem_of_cons, elem_of_nil.
    intros [[=]|[[= ->]|[]]]. done.
  - rewrite checkpoint_skip by done. by intros Hin%elem_of_nil.
Qed.

(** C2, on the code: with [ckpt_every=100] and [keep_every=500] the
    write of step 500 is issued with [delete_old=False] and the write
    of step 600 with [delete_old=True]; in the reference world, after
    the write of step 600, the checkpoint of step 400 is still there
    and the checkpoint of step 500 is gone. *)
Theorem retention_follows_new_step :
  result (main sim_collab 601 (sim_args false) (sim_params 100 500 1000)
            true sim_fresh) = Ok 601 ∧
  (λ sa, (sa_step sa, sa_delete_old sa)) <$>
    saves (events (main sim_collab 601 (sim_args false)
                     (sim_params 100 500 1000) true sim_fresh)) =
    [(0, None); (100, Some true); (200, Some true); (300, Some true);
     (400, Some true); (500, Some false); (600, Some true)] ∧
  (ckpts (world (main sim_collab 601 (sim_args false)
                   (sim_params 100 500 1000) true sim_fresh))).*1 =
    [400; 600].
Proof. vm_compute. done. Qed.

(** C7, on the code: a first attempt writes the checkpoint of step 1
    with the cursor at 3 and crashes in the next iteration; the second
    attempt loads that checkpoint, draws one batch before its loop and
    one in the iteration of step 1, and writes the checkpoint of step 1
    again, now with the cursor at 5. *)
Theorem resumed_checkpoint_cursor_skew :
  (λ sa, (sa_step sa, cursor_of sa)) <$>
    saves (events (script sim_collab 2 3 (sim_args false)
                     (sim_params 1 5 1000) (crashing [3%nat]))) =
  [(0, None); (1, Some 3);
   (0, None); (1, Some 5); (2, Some 6); (3, Some 7)].
Proof. vm_compute. done. Qed.

(** Against C3 as stated: the first attempt raises in its first training
    call; the script starts a second attempt, its trace is the two
    attempts' traces one after the other, and no call in it reports
    the exception. *)
Lemma supervisor_drops_exception :
  result (main sim_collab 1 (sim_args false) (sim_params 1 5 1000) true
            (crashing [0%nat])) = Raise (Exception "boom") ∧
  events (script sim_collab 2 1 (sim_args false) (sim_params 1 5 1000)
            (crashing [0%nat])) =
    events (main sim_collab 1 (sim_args false) (sim_params 1 5 1000) true
              (crashing [0%nat])) ++
    events (main sim_collab 1 (sim_args false) (sim_params 1 5 1000) false
              (world (main sim_collab 1 (sim_args false)
                        (sim_params 1 5 1000) true (crashing [0%nat])))) ∧
  existsb (reports (Exception "boom"))
    (events (script sim_collab 2 1 (sim_args false) (sim_params 1 5 1000)
               (crashing [0%nat]))) = false.
Proof. vm_compute. done. Qed.

Lemma supervisor_on_exception_witness :
  ∃ later,
    events (supervisor sim_collab 2 1 (sim_args false)
              (sim_params 1 5 1000) true (crashing [0%nat])) =
      events (main sim_collab 1 (sim_args false) (sim_params 1 5 1000)
                true (crashing [0%nat])) ++
      events (main sim_collab 1 (sim_args false) (sim_params 1 5 1000)
                false
                (world (main sim_collab 1 (sim_args false)
                          (sim_params 1 5 1000) true (crashing [0%nat]))))
      ++ later.
Proof.
  refine (proj2 (proj2 (supervisor_on_exception sim_collab 0 1
                          (sim_args false) (sim_params 1 5 1000) true
                          (crashing [0%nat]) (Exception "boom") _) _)).
  - vm_compute. reflexivity.
  - reflexivity.
Defined.

(** Against C4 as stated: when the run of lambada raises, the round
    raises too, after the validation report and the run of lambada;
    winogrande, piqa and hellaswag are not run. *)
Lemma task_failure_not_isolated :
  result (eval_round sim_collab (sim_params 1 5 1000) 1 0 lambada_fails) =
    Raise (Exception "lambada") ∧
  view round_op_of
    (events (eval_round sim_collab (sim_params 1 5 1000) 1 0
               lambada_fails)) =
    [OpValLoss "pile"; OpTask Lambada].
Proof. vm_compute. done. Qed.

Lemma task_failure_aborts_round_witness :
  benchmarks sim_collab 1 0 lambada_fails =
    (Raise (Exception "lambada"), lambada_fails, [EvTaskRun Lambada 1]).
Proof.
  refine (proj1 (task_failure_aborts_round sim_collab (sim_params 1 5 1000)
                   1 0 [] Lambada [Winogrande; Piqa; HellaSwag]
                   lambada_fails (Exception "lambada") lambada_fails
                   _ _ _)).
  - reflexivity.
  - reflexivity.
  - reflexivity.
Defined.


Lemma evaluation_iff_due_witness :
  ∃ t,
    events (iteration sim_collab (sim_params 1 5 1000) 1 0 sim_fresh) =
      events ((train_step sim_collab 0 ;;;
               checkpoint sim_collab (sim_params 1 5 1000) 0) sim_fresh)
      ++ t ∧
    (∀ s, result (iteration sim_collab (sim_params 1 5 1000) 1 0
                    sim_fresh) = Ok s →
          round_run sim_collab (sim_params 1 5 1000) 1 0
            (world ((train_step sim_collab 0 ;;;
                     checkpoint sim_collab (sim_params 1 5 1000) 0)
                      sim_fresh))
            t
            (world (iteration sim_collab (sim_params 1 5 1000) 1 0
                      sim_fresh))).
Proof.
  refine (proj2 (proj2 (proj2
            (evaluation_iff_due sim_collab (sim_params 1 5 1000) 1 0
               sim_fresh _ _))) _).
  - reflexivity.
  - simpl. lia.
  - reflexivity.
Defined.

Lemma eval_round_order_witness :
  round_run sim_collab (sim_params 1 5 1000) 1 0 sim_fresh
    (events (eval_round sim_collab (sim_params 1 5 1000) 1 0 sim_fresh))
    (world (eval_round sim_collab (sim_params 1 5 1000) 1 0 sim_fresh)).
Proof.
  refine (proj2 (proj2 (proj2
            (eval_round_order sim_collab (sim_params 1 5 1000) 1 0
               sim_fresh))) _).
  reflexivity.
Defined.

Lemma fallback_without_cursor_witness :
  init_or_load sim_collab (sim_args false) false no_cursor_saved =
    (Ok (7, None), no_cursor_saved,
     [EvSave (init_save_args (sim_args false) false);
      EvPrint (MsgSaveFailed (Exception "checkpoint exists"));
      EvLoad; EvPrint MsgRestoreFailed]).
Proof.
  refine (proj1 (fallback_without_cursor sim_collab 1 (sim_args false)
                   (sim_params 1 5 1000) false no_cursor_saved
                   (Exception "checkpoint exists") no_cursor_saved 7 ∅
                   no_cursor_saved 1 _ _ _ _ _)).
  - reflexivity.
  - reflexivity.
  - reflexivity.
  - reflexivity.
  - reflexivity.
Defined.


End ReferenceRuns.

(** * Further properties of main *)

(** ** What runs from line 80 on *)

Section RunEvents.
Context `{Carriers} {W : Type} (C : Collab W).

Lemma emits_bind_lift {A B} (P : event → Prop) (r : res A)
    (g : A → M W B) :
  (∀ x, r = Ok x → emits P (g x)) → emits P (bind (lift r) g).
Proof.
  intros Hg w. unfold bind, lift, events. destruct r as [x|e]; simpl.
  - specialize (Hg x eq_refl w). unfold events in Hg.
    by destruct (g x w) as [[r w1] t1].
  - constructor.
Qed.

Lemma emits_elem {A} (P : event → Prop) (m : M W A) w ev :
  emits P m → ev ∈ events (m w) → P ev.
Proof. intros Hm Hin. specialize (Hm w). by rewrite Forall_forall in Hm; apply Hm. Qed.

Lemma checkpoint_run_events p step : emits run_event (checkpoint C p step).
Proof. unfold checkpoint. emits_walk; done. Qed.

Lemma iteration_run_events p gvb step :
  emits run_event (iteration C p gvb step).
Proof.
  unfold iteration. apply emits_bind.
  { eapply emits_impl; [|apply train_step_emits]. classify_event. }
  intros _. apply emits_bind; [apply checkpoint_run_events|].
  intros _. apply emits_bind; [|intros _; apply emits_ret].
  eapply emits_impl; [|apply evaluation_emits]. classify_event.
Qed.

Lemma warm_up_run_events p : emits run_event (warm_up C p).
Proof.
  unfold warm_up, compile_eval, compile_train.
  apply emits_bind; [emits_walk; exact I|]. intros _.
  apply emits_bind; [|intros _; by apply emits_call].
  apply emits_bind; [|intros _; by apply emits_print].
  eapply emits_impl; [|apply compile_eval_sets_emits]. classify_event.
Qed.

(** From line 80 on an attempt makes no call of lines 34-78. *)
Lemma train_from_run_events fuel p step r :
  emits run_event (train_from C fuel p step r).
Proof.
  unfold train_from. apply emits_bind.
  { unfold make_train_dataset. emits_walk. exact I. }
  intros _. apply emits_bind; [apply emits_lift|].
  intros gvb. apply emits_bind; [by apply make_val_sets_emits|].
  intros _. apply emits_bind.
  { unfold make_tasks. emits_walk; exact I. }
  intros _. apply emits_bind; [apply warm_up_run_events|].
  intros _. apply step_loop_emits. intros s. apply iteration_run_events.
Qed.

Lemma before_init_emits a p :
  emits (λ ev, match ev with
               | EvPrint (MsgFromScratch _ _ _) | EvInput
               | EvBuildModel => True
               | _ => False
               end) (before_init C a p).
Proof. unfold before_init, confirm_new, check_pe. emits_walk; exact I. Qed.

(** [main] is lines 34-66, then lines 68-78, then lines 80-149. *)
Lemma main_phases fuel a p first w :
  main C fuel a p first w =
  (before_init C a p ;;;
   sr <- init_or_load C a first ;; train_from C fuel p sr.1 sr.2) w.
Proof.
  unfold main, before_init, bind.
  repeat case_match; simplify_eq/=; rewrite ?app_nil_r, ?app_assoc; done.
Qed.

End RunEvents.

(** ** The initial save and its fallback *)

Section InitPaths.
Context `{Carriers} {W : Type} (C : Collab W).

Lemma main_after_before_init fuel a p first w0 w t0 :
  before_init C a p w0 = (Ok tt, w, t0) →
  main C fuel a p first w0 =
    (result ((sr <- init_or_load C a first ;;
              train_from C fuel p sr.1 sr.2) w),
     world ((sr <- init_or_load C a first ;;
             train_from C fuel p sr.1 sr.2) w),
     t0 ++ events ((sr <- init_or_load C a first ;;
                    train_from C fuel p sr.1 sr.2) w)).
Proof.
  intros Hb. rewrite main_phases. unfold bind at 1. rewrite Hb.
  by destruct (bind _ _ w) as [[r w1] t1].
Qed.

Lemma init_or_load_before_dataset a first :
  emits before_dataset_event (init_or_load C a first).
Proof. unfold init_or_load. emits_walk; exact I. Qed.

(** [t.load] is called only by an attempt whose lines 34-66 returned
    and whose initial save raised an instance of [Exception]: never
    after a save that returned, and never after one that raised
    [KeyboardInterrupt] or [SystemExit]. *)
Theorem load_only_after_failed_save fuel a p first w :
  EvLoad ∈ events (main C fuel a p first w) →
  result (before_init C a p w) = Ok tt ∧
  ∃ e w1,
    c_save C (init_save_args a first) (world (before_init C a p w)) =
      (Raise e, w1) ∧
    is_Exception e = true.
Proof.
  rewrite main_phases, events_bind. intros [Hin|Hin]%elem_of_app.
  { by apply (emits_elem _ _ _ _ (before_init_emits C a p)) in Hin. }
  destruct (result (before_init C a p w)) as [[]|e0];
    [|by apply elem_of_nil in Hin].
  split; [done|]. set (w0 := world (before_init C a p w)) in *.
  rewrite events_bind in Hin. apply elem_of_app in Hin as [Hin|Hin].
  - revert Hin. unfold init_or_load, try_except_Exception.
    unfold bind at 1, call at 1.
    destruct (c_save C (init_save_args a first) w0) as [[[]|e] w1] eqn:Hs.
    + unfold ret, events. simpl.
      by intros [=]%list_elem_of_singleton.
    + destruct (is_Exception e) eqn:He; [by eauto|].
      unfold events. simpl. by intros [=]%list_elem_of_singleton.
  - destruct (result (init_or_load C a first w0)) as [sr|e];
      [|by apply elem_of_nil in Hin].
    by apply (emits_elem _ _ _ _ (train_from_run_events C fuel p _ _))
      in Hin.
Qed.

(** When the initial save raises an [Exception] and the loaded payload
    has a ["train_loader"] entry, the attempt prints the exception,
    loads, prints no warning, and goes on from the loaded step; the
    first call of the rest of the attempt builds the training provider
    with that entry as [restore_state]. *)
Theorem fallback_with_cursor fuel a p first w0 w t0 e w1 step
    (aux : gmap string cstate) c w2 n :
  before_init C a p w0 = (Ok tt, w, t0) →
  c_save C (init_save_args a first) w = (Raise e, w1) →
  is_Exception e = true →
  c_load C w1 = (Ok (step, aux), w2) →
  aux !! "train_loader"%string = Some c →
  global_batch p = Ok n →
  main C fuel a p first w0 =
    (result (train_from C fuel p step (Some c) w2),
     world (train_from C fuel p step (Some c) w2),
     t0 ++
     [EvSave (init_save_args a first); EvPrint (MsgSaveFailed e); EvLoad]
     ++ events (train_from C fuel p step (Some c) w2)) ∧
  ∃ rest,
    events (train_from C fuel p step (Some c) w2) =
      EvNewInputs DsTrain ("data/" +:+ train_set p)
        [default 1 (gradient_accumulation_steps p); n] (seq p) (Some c)
      :: rest.
Proof.
  intros Hb Hsave He Hload Haux Hgb.
  assert (Hinit : init_or_load C a first w =
    (Ok (step, Some c), w2,
     [EvSave (init_save_args a first); EvPrint (MsgSaveFailed e);
      EvLoad])).
  { unfold init_or_load, try_except_Exception.
    unfold bind at 1, call at 1. rewrite Hsave, He.
    unfold bind, print, call. rewrite Hload. simpl. rewrite Haux.
    simpl. done. }
  split.
  - rewrite (main_after_before_init _ _ _ _ _ _ _ Hb).
    unfold bind at 1 2 3. rewrite Hinit. simpl.
    by destruct (train_from C fuel p step (Some c) w2) as [[r w3] t3].
  - unfold train_from, make_train_dataset.
    rewrite events_bind, events_bind. unfold lift at 1 2. simpl.
    rewrite Hgb. simpl. rewrite events_call. simpl. eauto.
Qed.

(** When the initial save raises an [Exception] and [t.load] raises
    too, the attempt ends with the exception of [t.load], right after
    the call: no dataset is built and nothing is trained. *)
Theorem load_failure_ends_attempt fuel a p first w0 w t0 e w1 e2 w2 :
  before_init C a p w0 = (Ok tt, w, t0) →
  c_save C (init_save_args a first) w = (Raise e, w1) →
  is_Exception e = true →
  c_load C w1 = (Raise e2, w2) →
  main C fuel a p first w0 =
    (Raise e2, w2,
     t0 ++
     [EvSave (init_save_args a first); EvPrint (MsgSaveFailed e); EvLoad]).
Proof.
  intros Hb Hsave He Hload.
  rewrite (main_after_before_init _ _ _ _ _ _ _ Hb).
  assert (Hinit : init_or_load C a first w =
    (Raise e2, w2,
     [EvSave (init_save_args a first); EvPrint (MsgSaveFailed e);
      EvLoad])).
  { unfold init_or_load, try_except_Exception.
    unfold bind at 1, call at 1. rewrite Hsave, He.
    unfold bind, print, call. rewrite Hload. simpl. done. }
  unfold bind. by rewrite Hinit.
Qed.

(** With [--new], an attempt, first or not, starts with the notice and
    the prompt; when the prompt raises (end of input, an interrupt),
    the attempt ends there: the model is not built and nothing is
    saved or deleted. *)
Theorem prompt_failure_stops_attempt fuel a p first w e w1 :
  new a = true →
  c_input C w = (Raise e, w1) →
  main C fuel a p first w =
    (Raise e, w1,
     [EvPrint (MsgFromScratch (name p) (bucket p) (model_dir p));
      EvInput]).
Proof.
  intros Hn Hi. unfold main, confirm_new. rewrite Hn.
  unfold bind, print, call. by rewrite Hi.
Qed.

(** Without [--new] an attempt never prompts and never prints the
    notice. *)
Theorem no_prompt_without_new fuel a p first w :
  new a = false →
  Forall (λ ev, match ev with
                | EvInput | EvPrint (MsgFromScratch _ _ _) => False
                | _ => True
                end) (events (main C fuel a p first w)).
Proof.
  intros Hn. rewrite main_phases.
  apply (emits_bind _ _ _).
  { unfold before_init, confirm_new, check_pe. rewrite Hn.
    emits_walk; exact I. }
  intros _. apply emits_bind.
  { unfold init_or_load. emits_walk; exact I. }
  intros sr. eapply emits_impl; [|apply train_from_run_events].
  classify_event.
Qed.

(** With [cores_per_replica = 0] an attempt never gets past line 82:
    it never returns to its loop and makes no call beyond lines 34-78
    (the initial save of line 69 included), so no dataset is built and
    nothing is trained; when lines 34-78 return, the attempt raises
    [ZeroDivisionError]. *)
Theorem zero_cores_no_dataset fuel a p first w :
  cores_per_replica p = 0 →
  Forall before_dataset_event (events (main C fuel a p first w)) ∧
  (∀ s, result (main C fuel a p first w) ≠ Ok s) ∧
  (∀ sr, result ((before_init C a p ;;; init_or_load C a first) w) = Ok sr →
         result (main C fuel a p first w) = Raise ZeroDivisionError).
Proof.
  intros Hz.
  assert (Htf : ∀ step r w', train_from C fuel p step r w' =
                             (Raise ZeroDivisionError, w', [])).
  { intros step r w'. unfold train_from, make_train_dataset, global_batch,
      py_floordiv. rewrite Hz. simpl. done. }
  rewrite main_phases. split; [|split].
  - apply (emits_bind _ _ _).
    { eapply emits_impl; [|apply before_init_emits]. classify_event. }
    intros _. apply emits_bind; [apply init_or_load_before_dataset|].
    intros sr w'. rewrite Htf. constructor.
  - intros s. rewrite !result_bind.
    destruct (result (before_init C a p w)); [|done].
    destruct (result (init_or_load C a first _)); [|done].
    by rewrite Htf.
  - intros sr. rewrite !result_bind.
    destruct (result (before_init C a p w)); [|done].
    destruct (result (init_or_load C a first _)); [|done].
    by rewrite Htf.
Qed.

End InitPaths.

(** ** The step loop at its edges *)

Section LoopEdges.
Context `{Carriers} {W : Type} (C : Collab W).

Lemma emits_intro {A} (P : event → Prop) (m : M W A) :
  (∀ w ev, ev ∈ events (m w) → P ev) → emits P m.
Proof. intros Hm w. apply Forall_forall. apply Hm. Qed.

(** A save of the checkpoint block was due, had both intervals
    non-zero, and carries the snapshot [get_state] returned in the
    world the block started in. *)
Lemma checkpoint_save_inv p step w sa :
  EvSave sa ∈ events (checkpoint C p step w) →
  ckpt_every p ≠ 0 ∧ keep_every p ≠ 0 ∧
  step mod ckpt_every p = 0 ∧ step ≠ 0 ∧
  ∃ c w1, c_get_state C w = (Ok c, w1) ∧
          sa = ckpt_save_args step c (step mod keep_every p).
Proof.
  destruct (decide (ckpt_every p = 0)) as [Hz|Hz].
  { rewrite checkpoint_zero by done. by intros Hin%elem_of_nil. }
  destruct ((step mod ckpt_every p =? 0) && negb (step =? 0)) eqn:Hd.
  - rewrite checkpoint_write by done.
    apply andb_true_iff in Hd as [Hm%Z.eqb_eq Hs%negb_true_iff].
    apply Z.eqb_neq in Hs.
    unfold bind at 1, call at 1.
    destruct (c_get_state C w) as [[c|e] w1] eqn:Hg;
      [|by intros [=]%list_elem_of_singleton].
    unfold bind, lift, py_mod.
    destruct (keep_every p =? 0) eqn:Hk; simpl.
    { by intros [=]%list_elem_of_singleton. }
    apply Z.eqb_neq in Hk.
    unfold call. destruct (c_save C _ w1) as [r w2]. unfold events. simpl.
    rewrite !elem_of_cons, elem_of_nil.
    intros [[=]|[[= ->]|[]]]. eauto 10.
  - rewrite checkpoint_skip by done. by intros Hin%elem_of_nil.
Qed.

(** Every save of the step loop's checkpoint block carries, under the
    key ["train_loader"] and nothing else, the snapshot that
    [get_state] returned at the start of the block; it is no initial
    save and passes no [overwrite]. *)
Theorem checkpoint_payload p step w sa :
  EvSave sa ∈ events (checkpoint C p step w) →
  ∃ c w1,
    c_get_state C w = (Ok c, w1) ∧
    sa_step sa = step ∧
    sa_aux sa = Some {[ "train_loader"%string := c ]} ∧
    sa_init sa = false ∧ sa_overwrite sa = None.
Proof.
  intros (_ & _ & _ & _ & c & w1 & Hg & ->)%checkpoint_save_inv.
  by exists c, w1.
Qed.

Lemma iteration_events p gvb step w :
  events (iteration C p gvb step w) =
  events (train_step C step w) ++
  match result (train_step C step w) with
  | Ok _ =>
      events (checkpoint C p step (world (train_step C step w))) ++
      match result (checkpoint C p step (world (train_step C step w))) with
      | Ok _ =>
          events (evaluation C p gvb step
                    (world (checkpoint C p step
                              (world (train_step C step w)))))
      | Raise _ => []
      end
  | Raise _ => []
  end.
Proof.
  unfold iteration. rewrite events_bind.
  destruct (result (train_step C step w)); [|done]. f_equal.
  rewrite events_bind.
  destruct (result (checkpoint C p step _)); [|done]. f_equal.
  rewrite events_bind.
  destruct (result (evaluation C p gvb step _)); simpl;
    by rewrite app_nil_r.
Qed.

(** The calls of an iteration come in three runs: the training call and
    its report, then the checkpoint block, then the evaluation. *)
Theorem iteration_phases p gvb step w :
  ∃ t c r,
    events (iteration C p gvb step w) = t ++ c ++ r ∧
    Forall train_event t ∧ Forall ckpt_event c ∧ Forall round_event r.
Proof.
  rewrite iteration_events.
  exists (events (train_step C step w)).
  destruct (result (train_step C step w)).
  - exists (events (checkpoint C p step (world (train_step C step w)))).
    destruct (result (checkpoint C p step _)).
    + eexists. split; [done|].
      split; [apply train_step_emits|].
      split; [apply checkpoint_emits|apply evaluation_emits].
    + exists []. split; [done|].
      split; [apply train_step_emits|].
      split; [apply checkpoint_emits|constructor].
  - exists [], []. split; [done|].
    split; [apply train_step_emits|]. split; constructor.
Qed.

Lemma step_loop_first p gvb n step w :
  (∀ s, result (iteration C p gvb step w) ≠ Ok s) →
  step_loop C p gvb (S n) step w = iteration C p gvb step w.
Proof.
  intros Hr. simpl. unfold bind.
  destruct (iteration C p gvb step w) as [[[s|e] w1] t1]; [|done].
  by destruct (Hr s).
Qed.

(** With [ckpt_every = 0] the step loop never completes an iteration:
    it raises at line 115 of its first one, having made at most the
    training call and its report; it writes no checkpoint and runs no
    evaluation. *)
Theorem zero_ckpt_every_stops_loop p gvb n step w :
  ckpt_every p = 0 →
  (∀ s, result (step_loop C p gvb (S n) step w) ≠ Ok s) ∧
  Forall train_event (events (step_loop C p gvb (S n) step w)) ∧
  (result (train_step C step w) = Ok tt →
   result (step_loop C p gvb (S n) step w) = Raise ZeroDivisionError).
Proof.
  intros Hz.
  assert (Hr : ∀ s, result (iteration C p gvb step w) ≠ Ok s).
  { intros s. unfold iteration. rewrite !result_bind.
    destruct (result (train_step C step w)); [|done].
    by rewrite checkpoint_zero. }
  rewrite step_loop_first by done. split; [done|]. split.
  - rewrite iteration_events.
    destruct (result (train_step C step w)).
    + rewrite checkpoint_zero by done. simpl. rewrite app_nil_r.
      apply train_step_emits.
    + rewrite app_nil_r. apply train_step_emits.
  - intros Ht. unfold iteration. rewrite !result_bind, Ht.
    by rewrite checkpoint_zero.
Qed.

(** With [val_every = 0] the step loop never completes an iteration
    either: its first one trains, may write a checkpoint, and raises
    at line 121; no call of an evaluation round is ever made. *)
Theorem zero_val_every_stops_loop p gvb n step w :
  val_every p = 0 →
  (∀ s, result (step_loop C p gvb (S n) step w) ≠ Ok s) ∧
  Forall (λ ev, train_event ev ∨ ckpt_event ev)
    (events (step_loop C p gvb (S n) step w)).
Proof.
  intros Hz.
  assert (Hr : ∀ s, result (iteration C p gvb step w) ≠ Ok s).
  { intros s. unfold iteration. rewrite !result_bind.
    destruct (result (train_step C step w)); [|done].
    destruct (result (checkpoint C p step _)); [|done].
    by rewrite evaluation_zero. }
  rewrite step_loop_first by done. split; [done|].
  rewrite iteration_events. apply Forall_app. split.
  { eapply Forall_impl; [apply train_step_emits|]. auto. }
  destruct (result (train_step C step w)); [|constructor].
  apply Forall_app. split.
  { eapply Forall_impl; [apply checkpoint_emits|]. auto. }
  destruct (result (checkpoint C p step _)); [|constructor].
  rewrite evaluation_zero by done. constructor.
Qed.

(** With [keep_every = 0] the step loop never calls [t.save]: a due
    checkpoint takes the snapshot and raises at line 119 before the
    call. *)
Theorem zero_keep_every_never_saves p gvb n step w :
  keep_every p = 0 →
  saves (events (step_loop C p gvb n step w)) = [].
Proof.
  intros Hz.
  assert (Hno : emits (λ ev, ∀ sa', ev ≠ EvSave sa')
                  (step_loop C p gvb n step)).
  { apply step_loop_emits. intros s. unfold iteration. apply emits_bind.
    { eapply emits_impl; [|apply train_step_emits]. classify_event. }
    intros _. apply emits_bind.
    { apply emits_intro. intros w' ev Hev sa' ->.
      apply checkpoint_save_inv in Hev as (_ & Hk & _). done. }
    intros _. apply emits_bind; [|intros _; apply emits_ret].
    eapply emits_impl; [|apply evaluation_emits]. classify_event. }
  specialize (Hno w). unfold saves.
  induction Hno as [|ev t Hev _ IH]; [done|].
  simpl. destruct ev; try done. by destruct (Hev a).
Qed.

End LoopEdges.

(** ** Reports, shapes and the order of set-up *)

Section Wiring.
Context `{Carriers} {W : Type} (C : Collab W).

Lemma val_losses_pulls_and_evals (P : event → Prop) k n :
  (∀ k', P (EvNext k')) → (∀ b, P (EvEval b)) →
  emits P (val_losses C k n).
Proof.
  intros Hn He. induction n as [|n IH]; simpl.
  - emits_walk; auto.
  - apply emits_bind; [by apply emits_call|]. intros [i|]; [|apply emits_ret].
    apply emits_bind; [by apply emits_call|]. intros l.
    apply emits_bind; [apply IH|]. intros ls. apply emits_ret.
Qed.

Lemma evaluation_round_events p gvb step :
  emits (round_event_of gvb step) (evaluation C p gvb step).
Proof.
  unfold evaluation. apply emits_bind; [apply emits_lift|]. intros m.
  destruct (m =? 0); [|apply emits_ret].
  unfold eval_round. apply emits_bind.
  - induction (val_names p) as [|k ks IH]; simpl; [apply emits_ret|].
    apply emits_bind; [|intros _; apply IH].
    unfold validate. apply emits_bind; [by apply emits_call|]. intros _.
    apply emits_bind; [by apply val_losses_pulls_and_evals|]. intros ls.
    emits_walk; done.
  - intros _. unfold benchmarks, run_task. emits_walk; done.
Qed.

Lemma warm_up_events p : emits warm_up_event (warm_up C p).
Proof.
  unfold warm_up, compile_eval, compile_train.
  apply emits_bind; [emits_walk; exact I|]. intros _.
  apply emits_bind; [|intros _; by apply emits_call].
  apply emits_bind; [|intros _; by apply emits_print].
  eapply emits_impl; [|apply compile_eval_sets_emits]. classify_event.
Qed.

Lemma view_Forall {X A} (f : event → option X) (Q : X → Prop)
    (m : M W A) w :
  emits (λ ev, ∀ x, f ev = Some x → Q x) m →
  Forall Q (view f (events (m w))).
Proof.
  intros Hm. specialize (Hm w). unfold view.
  induction Hm as [|ev t Hev _ IH]; simpl; [constructor|].
  destruct (f ev) as [x|] eqn:Hf; [|done].
  constructor; [by apply Hev|done].
Qed.

Lemma iteration_filed_under p gvb step :
  emits (λ ev, ∀ s, filed_under ev = Some s → s = step)
    (iteration C p gvb step).
Proof.
  unfold iteration. apply emits_bind.
  { unfold train_step. emits_walk; simpl; congruence. }
  intros _. apply emits_bind.
  { eapply emits_impl; [|apply checkpoint_emits].
    intros ev Hev s. destruct ev; done. }
  intros _. apply emits_bind; [|intros _; apply emits_ret].
  eapply emits_impl; [|apply evaluation_round_events].
  intros ev Hev s. destruct ev; simpl in *;
    repeat case_match; simplify_eq/=; try done; congruence.
Qed.

(** Every report of the step loop is filed under a step of the loop:
    over [n] iterations from [step], each [wandb.log] and each
    validation message carries a step between [step] and
    [step + n - 1]; within one iteration they all carry its step. *)
Theorem reports_filed_under_step p gvb n step w :
  Forall (λ s, step ≤ s < step + Z.of_nat n)
    (view filed_under (events (step_loop C p gvb n step w))) ∧
  Forall (λ s, s = step)
    (view filed_under (events (iteration C p gvb step w))).
Proof.
  split; [|apply view_Forall, iteration_filed_under].
  revert step w. induction n as [|n IH]; intros step w.
  - constructor.
  - cbn [step_loop]. rewrite events_bind, view_app.
    apply Forall_app. split.
    + eapply Forall_impl;
        [apply view_Forall, iteration_filed_under|].
      intros s ->. lia.
    + destruct (result (iteration C p gvb step w)) as [s1|e] eqn:Hr;
        [|constructor].
      apply iteration_result in Hr as ->.
      eapply Forall_impl; [apply IH|]. intros s Hs. simpl in Hs. lia.
Qed.

Lemma view_hidden {X A} (f : event → option X) (m : M W A) w :
  emits (λ ev, f ev = None) m → view f (events (m w)) = [].
Proof.
  intros Hm. destruct (follows_hidden f m Hm w) as [Hp _].
  by apply prefix_nil_inv in Hp.
Qed.

(** From line 80 on, an attempt that is still running after [n]
    iterations counts its steps from the step it was given: it reports
    the [n] steps [step .. step + n - 1], the given step first, and
    its counter stands at [step + n]. *)
Theorem train_from_counts_from_step n p step r w s :
  result (train_from C n p step r w) = Ok s →
  s = step + Z.of_nat n ∧
  view counted_step (events (train_from C n p step r w)) =
    steps_from step n.
Proof.
  unfold train_from. intros Hr.
  assert (Hs : ∀ A (m : M W A) w',
             emits setup_event m → view counted_step (events (m w')) = []).
  { intros A m w' Hm. apply view_hidden.
    eapply emits_impl; [|exact Hm]. classify_event. }
  rewrite events_bind, view_app, Hs
    by (unfold make_train_dataset; emits_walk; exact I).
  apply bind_Ok_inv in Hr as ([] & Hr1 & Hr). rewrite Hr1. cbv beta.
  rewrite events_bind. apply bind_Ok_inv in Hr as (gvb & Hg & Hr).
  rewrite Hg. cbv beta. unfold lift at 1. unfold events at 1. simpl.
  rewrite events_bind, view_app, Hs by apply make_val_sets_setup.
  apply bind_Ok_inv in Hr as ([] & Hr2 & Hr). rewrite Hr2. cbv beta.
  rewrite events_bind, view_app, Hs
    by (unfold make_tasks; emits_walk; exact I).
  apply bind_Ok_inv in Hr as ([] & Hr3 & Hr). rewrite Hr3. cbv beta.
  rewrite events_bind, view_app.
  assert (Hw : ∀ w', view counted_step (events (warm_up C p w')) = []).
  { intros w'. apply view_hidden.
    eapply emits_impl; [|apply warm_up_events]. classify_event. }
  rewrite Hw.
  apply bind_Ok_inv in Hr as ([] & Hr4 & Hr). rewrite Hr4. cbv beta.
  simpl. by destruct (proj2 (step_loop_counted C p gvb n step _) s Hr)
    as [-> ->].
Qed.

Lemma make_val_sets_wired p gvb items :
  global_batch p = Ok gvb → items ⊆ val_set p →
  emits (wired p) (make_val_sets C gvb (seq p) items).
Proof.
  intros Hg. induction items as [|[k v] items IH]; intros Hsub; simpl.
  - apply emits_ret.
  - apply emits_bind.
    + apply emits_call. simpl. split; [done|]. split; [done|].
      exists v, gvb. split; [|done]. apply Hsub. apply list_elem_of_here.
    + intros _. apply IH. intros x Hx. apply Hsub.
      by apply list_elem_of_further.
Qed.

(** Every dataset and every benchmark run of an attempt gets the shape
    the configuration gives: the training provider is built on
    ["data/" + train_set] with batch size
    [(gradient_accumulation_steps or 1,
      per_replica_batch * tpu_size // cores_per_replica)],
    each validation provider on the path of a configured validation
    set with that second number alone and no [restore_state], all with
    sample size [seq]; every task is run with that same number. *)
Theorem main_wiring fuel a p first w :
  Forall (wired p) (events (main C fuel a p first w)).
Proof.
  rewrite main_phases. apply (emits_bind _ _ _).
  { eapply emits_impl; [|apply before_init_emits]. classify_event. }
  intros _. apply emits_bind.
  { eapply emits_impl; [|apply init_or_load_before_dataset].
    classify_event. }
  intros sr. unfold train_from. apply emits_bind.
  { unfold make_train_dataset. apply emits_bind_lift. intros n Hn.
    apply emits_call. simpl. eauto. }
  intros _. apply emits_bind_lift. intros gvb Hg.
  apply emits_bind; [by apply make_val_sets_wired|].
  intros _. apply emits_bind.
  { unfold make_tasks. emits_walk; exact I. }
  intros _. apply emits_bind.
  { eapply emits_impl; [|apply warm_up_events]. classify_event. }
  intros _. apply step_loop_emits. intros s. unfold iteration.
  apply emits_bind.
  { eapply emits_impl; [|apply train_step_emits]. classify_event. }
  intros _. apply emits_bind.
  { eapply emits_impl; [|apply checkpoint_emits]. classify_event. }
  intros _. apply emits_bind; [|intros _; apply emits_ret].
  eapply emits_impl; [|apply (evaluation_round_events p gvb s)].
  intros ev Hev. destruct ev; simpl in *; try done.
  by rewrite Hev.
Qed.

End Wiring.

(** ** Set-up order, validation passes and the end of the script *)

Section SetupAndPasses.
Context `{Carriers} {W : Type} (C : Collab W).

Lemma init_or_load_setup_ops a first :
  follows setup_op_of [OpInitSave] (init_or_load C a first).
Proof.
  intros w. unfold init_or_load, try_except_Exception.
  unfold bind, call, print, ret, view, events, result.
  destruct (c_save C (init_save_args a first) w) as [[[]|e] w1]; simpl.
  { done. }
  destruct (is_Exception e); simpl; [|done].
  destruct (c_load C w1) as [[[s aux]|e2] w2]; simpl; [|done].
  by destruct (aux !! "train_loader"%string).
Qed.

Lemma make_val_sets_setup_ops gvb sq items :
  follows setup_op_of ((λ k, OpNewInputs (DsVal k)) <$> items.*1)
    (make_val_sets C gvb sq items).
Proof.
  induction items as [|[k v] items IH]; simpl; [apply follows_ret|].
  apply (follows_bind _ [OpNewInputs (DsVal k)]);
    [by apply follows_call_shown|].
  intros _. apply IH.
Qed.

Lemma make_tasks_setup_ops :
  follows setup_op_of (OpTaskInit <$> task_order) (make_tasks C).
Proof.
  unfold make_tasks, task_order.
  apply (follows_bind _ [OpTaskInit Lambada]);
    [by apply follows_call_shown|]. intros _.
  apply (follows_bind _ [OpTaskInit Winogrande]);
    [by apply follows_call_shown|]. intros _.
  apply (follows_bind _ [OpTaskInit Piqa]);
    [by apply follows_call_shown|]. intros _.
  by apply follows_call_shown.
Qed.

Lemma warm_up_setup_ops p :
  follows setup_op_of [OpCompileTrain; OpWandbInit] (warm_up C p).
Proof.
  unfold warm_up, compile_eval, compile_train.
  apply (follows_bind _ [OpCompileTrain] [OpWandbInit]).
  { apply follows_bind_hidden; [by apply follows_call_hidden|]. intros b.
    apply follows_bind_end; [by apply follows_call_shown|].
    intros _. by apply follows_print_hidden. }
  intros _. apply follows_bind_hidden.
  - apply follows_bind_hidden; [|intros _; by apply follows_print_hidden].
    apply follows_hidden.
    eapply emits_impl; [|apply compile_eval_sets_emits]. classify_event.
  - intros _. by apply follows_call_shown.
Qed.

(** An attempt sets up in one fixed order: it builds the model, issues
    the initial save, builds the training provider, then one
    validation provider per configured set in the configured order,
    then the four tasks (lambada, winogrande, piqa, hellaswag), makes
    the compile call of [t.train], and calls [wandb.init] last.  An
    attempt that raises on the way has gone through a prefix of this
    list; one that reaches its loop has gone through all of it. *)
Theorem setup_order a p first w :
  view setup_op_of (events (main C 0 a p first w))
    `prefix_of` setup_schedule p ∧
  (∀ s, result (main C 0 a p first w) = Ok s →
        view setup_op_of (events (main C 0 a p first w)) =
          setup_schedule p).
Proof.
  revert w. change (follows setup_op_of (setup_schedule p)
                      (main C 0 a p first)).
  unfold main, setup_schedule.
  apply follows_bind_hidden.
  { apply follows_hidden. unfold confirm_new. emits_walk; done. }
  intros _. apply follows_bind_hidden.
  { apply follows_hidden. unfold check_pe. emits_walk. }
  intros _.
  apply (follows_bind _ [OpBuildModel]); [by apply follows_call_shown|].
  intros _.
  apply (follows_bind _ [OpInitSave]); [apply init_or_load_setup_ops|].
  intros sr. unfold train_from.
  apply (follows_bind _ [OpNewInputs DsTrain]).
  { unfold make_train_dataset.
    apply follows_bind_hidden; [apply follows_lift|]. intros n.
    by apply follows_call_shown. }
  intros _. apply follows_bind_hidden; [apply follows_lift|].
  intros gvb. apply follows_bind; [apply make_val_sets_setup_ops|].
  intros _. apply follows_bind; [apply make_tasks_setup_ops|].
  intros _. apply follows_bind_end; [apply warm_up_setup_ops|].
  intros _. simpl. apply follows_ret.
Qed.

Lemma view_cons {X} (f : event → option X) ev t :
  view f (ev :: t) =
  match f ev with
  | Some x => x :: view f t
  | None => view f t
  end.
Proof. done. Qed.

Lemma view_nil {X} (f : event → option X) : view f [] = [].
Proof. done. Qed.

Lemma val_losses_shape k n w r w' t :
  val_losses C k n w = (r, w', t) →
  (length (view eval_call_of t) ≤ n)%nat ∧
  (length (view eval_call_of t) ≤ length (view pull_of t) ≤ S n)%nat ∧
  (∀ ls, r = Ok ls →
         length ls = length (view eval_call_of t) ∧
         length (view pull_of t) = S (length ls)).
Proof.
  revert w r w' t. induction n as [|n IH]; intros w r w' t.
  - simpl. unfold bind, call, ret.
    destruct (c_next C k w) as [[[i|]|e] w1]; intros [= <- <- <-];
      cbn [app]; rewrite !view_cons, !view_nil;
      cbn [eval_call_of pull_of length];
      (split; [lia|split; [lia|]]); by intros ls [= <-].
  - cbn [val_losses]. unfold bind at 1, call at 1.
    destruct (c_next C k w) as [[[i|]|e] w1];
      [|unfold ret; intros [= <- <- <-];
        cbn [app]; rewrite !view_cons, !view_nil;
        cbn [eval_call_of pull_of length];
        (split; [lia|split; [lia|]]); by intros ls [= <-]..].
    unfold bind at 1, call at 1.
    destruct (c_eval C i w1) as [[l|e] w2].
    2:{ intros [= <- <- <-].
        cbn [app]. rewrite !view_cons, !view_nil.
        cbn [eval_call_of pull_of length].
        split; [lia|split; [lia|]]. by intros ls [=]. }
    unfold bind at 1.
    destruct (val_losses C k n w2) as [[[ls|e] w3] t3] eqn:Hv;
      specialize (IH _ _ _ _ Hv); destruct IH as (IH1 & IH2 & IH3);
      unfold ret; intros [= <- <- <-];
      cbn [app]; rewrite ?app_nil_r, !view_cons;
      cbn [eval_call_of pull_of length].
    + split; [lia|]. split; [lia|].
      intros ls' [= <-]. cbn [length].
      destruct (IH3 ls eq_refl) as [-> ->]. done.
    + split; [lia|]. split; [lia|]. by intros ls' [=].
Qed.

(** A validation pass over a range of [n] calls [t.eval] at most [n]
    times and pulls its generator at most [n + 1] times; a pass that
    returns has one loss per call of [t.eval] and has pulled once more
    than it evaluated (the pull comes first in the [zip], so the pass
    ends on a pull: the generator is exhausted, or a batch is drawn
    and dropped). *)
Theorem val_losses_bounded k n w :
  (length (view eval_call_of (events (val_losses C k n w))) ≤ n)%nat ∧
  (length (view pull_of (events (val_losses C k n w))) ≤ S n)%nat ∧
  (∀ ls, result (val_losses C k n w) = Ok ls →
         length ls =
           length (view eval_call_of (events (val_losses C k n w))) ∧
         length (view pull_of (events (val_losses C k n w))) =
           S (length ls)).
Proof.
  destruct (val_losses C k n w) as [[r w'] t] eqn:Hv.
  destruct (val_losses_shape k n w r w' t Hv) as (H1 & H2 & H3).
  split; [exact H1|]. split; [apply H2|exact H3].
Qed.

(** With [val_batches <= 0] a validation pass calls [t.eval] not once,
    and what it reports for the set is the mean of no loss at all. *)
Theorem validate_empty_range p step k w :
  val_batches p ≤ 0 →
  view eval_call_of (events (validate C p step k w)) = [] ∧
  (∀ m s, EvWandbLog m s ∈ events (validate C p step k w) →
          m = ValLoss k (mean []) ∧ s = step).
Proof.
  intros Hz. unfold validate.
  replace (Z.to_nat (val_batches p)) with 0%nat by lia. simpl.
  unfold bind, call, print, ret, view, events.
  destruct (c_sample_once C k w) as [[[]|e] w1]; simpl.
  2:{ split; [done|]. by intros m s [=]%list_elem_of_singleton. }
  destruct (c_next C k w1) as [[[i|]|e] w2]; simpl.
  - destruct (c_wandb_log C _ step w2) as [r w3]. simpl.
    split; [done|]. intros m s. rewrite !elem_of_cons, elem_of_nil.
    intros [[=]|[[=]|[[=]|[[= -> ->]|[]]]]]. done.
  - destruct (c_wandb_log C _ step w2) as [r w3]. simpl.
    split; [done|]. intros m s. rewrite !elem_of_cons, elem_of_nil.
    intros [[=]|[[=]|[[=]|[[= -> ->]|[]]]]]. done.
  - split; [done|]. intros m s. rewrite !elem_of_cons, elem_of_nil.
    by intros [[=]|[[=]|[]]].
Qed.

(** The trace of the supervisor is the traces of the attempts it
    started, one after the other, and the script ends only on a
    [KeyboardInterrupt]: the supervisor has left its loop exactly when
    the last attempt it started raised [KeyboardInterrupt]. *)
Theorem exit_needs_interrupt attempts fuel a p first w :
  events (supervisor C attempts fuel a p first w) =
    flat_map (λ bw, events (main C fuel a p bw.1 bw.2))
      (attempts_run C attempts fuel a p first w) ∧
  ((supervisor C attempts fuel a p first w).1.1 = SupExited ↔
   ∃ first' w',
     last (attempts_run C attempts fuel a p first w) = Some (first', w') ∧
     result (main C fuel a p first' w') = Raise KeyboardInterrupt).
Proof.
  revert first w. induction attempts as [|n IH]; intros first w.
  { simpl. split; [done|]. split; [done|]. by intros (? & ? & [=] & _). }
  cbn [supervisor attempts_run flat_map fst snd].
  destruct (main C fuel a p first w) as [[[s|e] w1] t1] eqn:Hm.
  { unfold events, result. simpl. rewrite app_nil_r. split; [done|].
    split; [done|]. intros (b & w' & [= <- <-] & Hr).
    rewrite Hm in Hr. done. }
  destruct (is_KeyboardInterrupt e) eqn:Hk.
  { unfold events, result. simpl. rewrite app_nil_r. split; [done|].
    split; [|done]. intros _. exists first, w. split; [done|].
    rewrite Hm. by destruct e. }
  destruct (IH false w1) as [IHe IHx].
  destruct (supervisor C n fuel a p false w1) as [[r w2] t2] eqn:Hs.
  unfold events in IHe |- *. cbn [fst snd] in IHe, IHx |- *.
  split; [by rewrite IHe|].
  rewrite IHx. destruct n as [|n']; [|done].
  cbn [attempts_run last]. split; [by intros (? & ? & [=] & _)|].
  intros (b & w' & [= <- <-] & Hr). rewrite Hm in Hr.
  unfold result in Hr. cbn [fst] in Hr. injection Hr as ->. done.
Qed.

(** With a positional-encoding mode other than fixed, rotary or t5
    and no [--new], the script spins: every attempt fails its [assert]
    before any call, the supervisor starts the next one, and however
    many attempts have run nothing has been printed, built or saved. *)
Theorem invalid_pe_spins attempts fuel a p first w :
  pe p ∉ ["fixed"; "rotary"; "t5"]%string →
  new a = false →
  supervisor C (S attempts) fuel a p first w = (SupNextAttempt false, w, []).
Proof.
  intros Hpe Hn.
  assert (Hm : ∀ b w', main C fuel a p b w' = (Raise AssertionError, w', [])).
  { intros b w'. unfold main, confirm_new, check_pe. rewrite Hn.
    rewrite bool_decide_eq_false_2 by done. done. }
  assert (Hs : ∀ n b, supervisor C n fuel a p b w =
                      (SupNextAttempt (match n with O => b | S _ => false end),
                       w, [])).
  { induction n as [|n IH]; intros b; [done|].
    cbn [supervisor]. rewrite Hm. simpl. rewrite (IH false).
    by destruct n. }
  apply Hs.
Qed.

End SetupAndPasses.

(** ** Further runs in the reference world *)

Section FurtherRuns.
Existing Instance sim_carriers.

Lemma load_only_after_failed_save_witness :
  result (before_init sim_collab (sim_args false) (sim_params 1 5 1000)
            no_cursor_saved) = Ok tt ∧
  ∃ e w1,
    c_save sim_collab (init_save_args (sim_args false) false)
      (world (before_init sim_collab (sim_args false)
                (sim_params 1 5 1000) no_cursor_saved)) = (Raise e, w1) ∧
    is_Exception e = true.
Proof.
  apply (load_only_after_failed_save sim_collab 0 (sim_args false)
           (sim_params 1 5 1000) false no_cursor_saved).
  vm_compute. repeat constructor.
Defined.

Lemma fallback_with_cursor_witness :
  ∃ rest,
    events (train_from sim_collab 1 (sim_params 1 5 1000) 7 (Some 9)
              cursor_saved) =
      EvNewInputs DsTrain "data/train.index" [1; 1] 1 (Some 9) :: rest.
Proof.
  refine (proj2 (fallback_with_cursor sim_collab 1 (sim_args false)
                   (sim_params 1 5 1000) false cursor_saved cursor_saved
                   [EvBuildModel] (Exception "checkpoint exists")
                   cursor_saved 7 {[ "train_loader"%string := 9 ]} 9
                   cursor_saved 1 _ _ _ _ _ _)); reflexivity.
Defined.

Lemma load_failure_ends_attempt_witness :
  main sim_collab_load_fails 1 (sim_args false) (sim_params 1 5 1000)
    false no_cursor_saved =
    (Raise (Exception "corrupt checkpoint"), no_cursor_saved,
     [EvBuildModel; EvSave (init_save_args (sim_args false) false);
      EvPrint (MsgSaveFailed (Exception "checkpoint exists")); EvLoad]).
Proof.
  refine (load_failure_ends_attempt sim_collab_load_fails 1
            (sim_args false) (sim_params 1 5 1000) false no_cursor_saved
            no_cursor_saved [EvBuildModel] (Exception "checkpoint exists")
            no_cursor_saved (Exception "corrupt checkpoint")
            no_cursor_saved _ _ _ _); reflexivity.
Defined.

Lemma prompt_failure_stops_attempt_witness :
  main sim_collab_no_stdin 1 (sim_args true) (sim_params 1 5 1000) false
    cursor_saved =
    (Raise (Exception "EOFError"), cursor_saved,
     [EvPrint (MsgFromScratch "run" "bucket" "dir"); EvInput]).
Proof.
  refine (prompt_failure_stops_attempt sim_collab_no_stdin 1
            (sim_args true) (sim_params 1 5 1000) false cursor_saved
            (Exception "EOFError") cursor_saved _ _); reflexivity.
Defined.

Lemma no_prompt_without_new_witness :
  Forall (λ ev, match ev with
                | EvInput | EvPrint (MsgFromScratch _ _ _) => False
                | _ => True
                end)
    (events (main sim_collab 1 (sim_args false) (sim_params 1 5 1000)
               true sim_fresh)).
Proof.
  apply (no_prompt_without_new sim_collab 1 (sim_args false)
           (sim_params 1 5 1000) true sim_fresh).
  reflexivity.
Defined.

Lemma zero_cores_no_dataset_witness :
  result (main sim_collab 1 (sim_args false)
            (sim_params_with 0 1 "rotary" 1 5 1000) true sim_fresh) =
    Raise ZeroDivisionError.
Proof.
  refine (proj2 (proj2 (zero_cores_no_dataset sim_collab 1 (sim_args false)
                          (sim_params_with 0 1 "rotary" 1 5 1000) true
                          sim_fresh _)) (0, None) _); reflexivity.
Defined.

Lemma checkpoint_payload_witness :
  ∃ c w1,
    c_get_state sim_collab sim_fresh = (Ok c, w1) ∧
    sa_step (@ckpt_save_args sim_carriers 1 0 1) = 1 ∧
    sa_aux (@ckpt_save_args sim_carriers 1 0 1) =
      Some {[ "train_loader"%string := c ]} ∧
    sa_init (@ckpt_save_args sim_carriers 1 0 1) = false ∧
    sa_overwrite (@ckpt_save_args sim_carriers 1 0 1) = None.
Proof.
  apply (checkpoint_payload sim_collab (sim_params 1 5 1000) 1 sim_fresh
           (@ckpt_save_args sim_carriers 1 0 1)).
  vm_compute. repeat constructor.
Defined.

Lemma zero_ckpt_every_stops_loop_witness :
  result (step_loop sim_collab (sim_params 0 5 1000) 1 3 0 sim_fresh) =
    Raise ZeroDivisionError.
Proof.
  refine (proj2 (proj2 (zero_ckpt_every_stops_loop sim_collab
                          (sim_params 0 5 1000) 1 2 0 sim_fresh _)) _);
    reflexivity.
Defined.

Lemma zero_val_every_stops_loop_witness :
  Forall (λ ev, train_event ev ∨ ckpt_event ev)
    (events (step_loop sim_collab (sim_params 1 5 0) 1 3 1 sim_fresh)).
Proof.
  refine (proj2 (zero_val_every_stops_loop sim_collab (sim_params 1 5 0)
                   1 2 1 sim_fresh _)); reflexivity.
Defined.

Lemma zero_keep_every_never_saves_witness :
  saves (events (step_loop sim_collab (sim_params 1 0 1000) 1 3 1
                   sim_fresh)) = [].
Proof.
  apply (zero_keep_every_never_saves sim_collab (sim_params 1 0 1000) 1 3
           1 sim_fresh).
  reflexivity.
Defined.

Lemma train_from_counts_from_step_witness :
  9 = 7 + Z.of_nat 2 ∧
  view counted_step
    (events (train_from sim_collab 2 (sim_params 1 5 1000) 7 (Some 9)
               sim_fresh)) = steps_from 7 2.
Proof.
  apply (train_from_counts_from_step sim_collab 2 (sim_params 1 5 1000) 7
           (Some 9) sim_fresh 9).
  vm_compute. reflexivity.
Defined.

Lemma validate_empty_range_witness :
  view eval_call_of
    (events (validate sim_collab (sim_params_with 8 0 "rotary" 1 5 1000)
               0 "pile" sim_fresh)) = [].
Proof.
  refine (proj1 (validate_empty_range sim_collab
                   (sim_params_with 8 0 "rotary" 1 5 1000) 0 "pile"
                   sim_fresh _)).
  simpl. lia.
Defined.

Lemma exit_needs_interrupt_witness :
  ∃ first' w',
    last (attempts_run sim_collab 3 1 (sim_args false)
            (sim_params 1 5 1000) true interrupted) = Some (first', w') ∧
    result (main sim_collab 1 (sim_args false) (sim_params 1 5 1000)
              first' w') = Raise KeyboardInterrupt.
Proof.
  apply (proj1 (proj2 (exit_needs_interrupt sim_collab 3 1 (sim_args false)
                         (sim_params 1 5 1000) true interrupted))).
  vm_compute. reflexivity.
Defined.

Lemma invalid_pe_spins_witness :
  supervisor sim_collab 5 1 (sim_args false)
    (sim_params_with 8 1 "alibi" 1 5 1000) true sim_fresh =
    (SupNextAttempt false, sim_fresh, []).
Proof.
  apply (invalid_pe_spins sim_collab 4 1 (sim_args false)
           (sim_params_with 8 1 "alibi" 1 5 1000) true sim_fresh).
  - vm_compute. intros Hin.
    repeat (apply elem_of_cons in Hin as [Hin|Hin]; [discriminate|]).
    by apply elem_of_nil in Hin.
  - reflexivity.
Defined.

End FurtherRuns.
